(** * PDF Text Analyzer: the extraction and analysis core of [backend/server.cjs]

    The development embeds the three functions of the backend,
    [calculateStats], [calculateWordFrequency] and [processPDF], together
    with the ECMAScript built-ins they call, and states the properties
    of the system description about them. *)

From Stdlib Require Import String Ascii List Arith NArith ZArith QArith.
From Stdlib Require Import Bool Lia Permutation DecimalString.
Import ListNotations.

#[local] Open Scope string_scope.
#[local] Open Scope list_scope.
#[local] Open Scope nat_scope.

(** ** ECMAScript built-ins

    A text is a [string]: a sequence of code units, each [ascii] standing
    for the code unit of the same number (0..255, the Latin-1 range, which
    every operation below maps into itself). *)
Module Js.

(** The number of a code unit. *)
Definition codeUnit (c : ascii) : nat := nat_of_ascii c.

Definition between (lo hi n : nat) : bool := (lo <=? n) && (n <=? hi).

(** The class [\s], which is also what [trim] strips: TAB, LF, VT, FF, CR,
    SPACE and NO-BREAK SPACE. *)
Definition isWhiteSpace (c : ascii) : bool :=
  between 9 13 (codeUnit c) || (codeUnit c =? 32) || (codeUnit c =? 160).

(** The class [\w]: [A-Za-z0-9_]. *)
Definition isWordChar (c : ascii) : bool :=
  between 48 57 (codeUnit c) || between 65 90 (codeUnit c) || (codeUnit c =? 95)
  || between 97 122 (codeUnit c).

(** The class [[.!?]]. *)
Definition isTerminator (c : ascii) : bool :=
  (codeUnit c =? 46) || (codeUnit c =? 33) || (codeUnit c =? 63).

(** [String.prototype.toLowerCase] on one code unit: A-Z, and the
    accented capitals U+00C0..U+00DE without the multiplication sign. *)
Definition lowerUnit (c : ascii) : ascii :=
  if between 65 90 (codeUnit c) || between 192 222 (codeUnit c) && negb (codeUnit c =? 215)
  then ascii_of_nat (codeUnit c + 32) else c.

Fixpoint toLowerCase (s : string) : string :=
  match s with
  | EmptyString => EmptyString
  | String c r => String (lowerUnit c) (toLowerCase r)
  end.

Fixpoint trimStart (s : string) : string :=
  match s with
  | EmptyString => EmptyString
  | String c r => if isWhiteSpace c then trimStart r else s
  end.

Fixpoint trimEnd (s : string) : string :=
  match s with
  | EmptyString => EmptyString
  | String c r =>
      match trimEnd r with
      | EmptyString => if isWhiteSpace c then EmptyString else String c EmptyString
      | r' => String c r'
      end
  end.

Definition trim (s : string) : string := trimEnd (trimStart s).

(** ToBoolean of a string: only the empty string is falsy. *)
Definition truthy (s : string) : bool :=
  match s with EmptyString => false | _ => true end.

(** [s.split(/[sep]+/)] for a character class [sep]: the substrings between
    the maximal runs of [sep], with an empty first (last) substring when
    [s] starts (ends) with a run, and [[""]] for the empty string.  The
    head of the result is the substring still being read; [inRun] says that
    the code unit before [s] belonged to a run. *)
Fixpoint splitRuns (sep : ascii -> bool) (inRun : bool) (s : string)
  : list string :=
  match s with
  | EmptyString => [EmptyString]
  | String c r =>
      if sep c then
        if inRun then splitRuns sep true r
        else EmptyString :: splitRuns sep true r
      else
        match splitRuns sep false r with
        | [] => [String c EmptyString]
        | piece :: pieces => String c piece :: pieces
        end
  end.

Definition split (sep : ascii -> bool) (s : string) : list string :=
  splitRuns sep false s.

(** [s.replace(/[cls]/g, '')]: every code unit of the class is deleted. *)
Fixpoint remove (cls : ascii -> bool) (s : string) : string :=
  match s with
  | EmptyString => EmptyString
  | String c r => if cls c then remove cls r else String c (remove cls r)
  end.

(** All matches of [/\b\w+\b/g], left to right: the maximal runs of word
    characters.  A match starts where a word character follows a non-word
    character or the start, and the greedy [\w+] followed by [\b] takes the
    whole run. *)
Fixpoint wordRuns (s : string) : list string :=
  match s with
  | EmptyString => []
  | String c r =>
      if isWordChar c then
        match r with
        | EmptyString => [String c EmptyString]
        | String c' _ =>
            if isWordChar c' then
              match wordRuns r with
              | [] => [String c EmptyString]
              | w :: ws => String c w :: ws
              end
            else String c EmptyString :: wordRuns r
        end
      else wordRuns r
  end.

(** [s.match(/\b\w+\b/g)]: [null] when nothing matches. *)
Definition matchWords (s : string) : option (list string) :=
  match wordRuns s with
  | [] => None
  | ws => Some ws
  end.

(** [x || []] for the result of [match]. *)
Definition orEmpty (m : option (list string)) : list string :=
  match m with Some ws => ws | None => [] end.

(** Numbers.  Lengths and counts are naturals; a quotient is kept as an
    exact fraction, with the two values a division by zero produces. *)
Inductive Number : Type :=
| NaN
| Infinity
| Fin (q : Q).

(** [a / b] for two non-negative integers. *)
Definition div (a b : nat) : Number :=
  match b with
  | 0 => match a with 0 => NaN | _ => Infinity end
  | _ => Fin (Z.of_nat a # Pos.of_nat b)
  end.

(** [x || y] on numbers: [NaN] and zero are falsy. *)
Definition or (x y : Number) : Number :=
  match x with
  | NaN => y
  | Infinity => x
  | Fin q => if Qeq_bool q 0 then y else x
  end.

(** [Array.prototype.sort] with a test [after x y] saying that [x] has to
    come after [y].  The sort is stable (ECMAScript 2019): every stable sort
    returns the same array for a consistent comparison, computed here by
    insertion from the right.  Where the comparison is not consistent (a
    comparison function that returns [NaN] against some elements and orders
    the others), ECMAScript leaves the order to the engine: the insertion
    then gives a permutation, which need not be the engine's.  Every
    statement about the order of a sorted list is made where the comparison
    is consistent. *)
Fixpoint insert {A : Type} (after : A -> A -> bool) (x : A) (l : list A)
  : list A :=
  match l with
  | [] => [x]
  | y :: r => if after x y then y :: insert after x r else x :: l
  end.

Fixpoint sort {A : Type} (after : A -> A -> bool) (l : list A) : list A :=
  match l with
  | [] => []
  | x :: r => insert after x (sort after r)
  end.

(** [set.has(x)] for a [Set] of strings built from an array literal. *)
Definition has (set : list string) (x : string) : bool :=
  existsb (String.eqb x) set.

End Js.

(** ** The analyzer: statistics *)

Record Stats : Type := mkStats {
  wordCount : nat;
  charCount : nat;
  charCountWithoutSpaces : nat;
  sentenceCount : nat;
  avgWordLength : Js.Number
}.

Definition calculateStats (text : string) : Stats :=
  let words :=
    filter (fun word => 0 <? String.length word) (Js.split Js.isWhiteSpace text) in
  let sentences :=
    filter (fun s => Js.truthy (Js.trim s)) (Js.split Js.isTerminator text) in
  let charCountWithoutSpaces := String.length (Js.remove Js.isWhiteSpace text) in
  {| wordCount := List.length words;
     charCount := String.length text;
     charCountWithoutSpaces := charCountWithoutSpaces;
     sentenceCount := List.length sentences;
     avgWordLength :=
       Js.or (Js.div (fold_left (fun acc word => acc + String.length word) words 0)
                     (List.length words))
             (Js.Fin 0) |}.

(** ** The [frequency] object

    [frequency] is an ordinary object created by [{}]: its own properties,
    kept here in creation order, and [Object.prototype] behind them. *)

(** What is stored under a word: the result of [(frequency[word] || 0) + 1],
    a number or, when [+] concatenates, a string. *)
Inductive Value : Type :=
| Num (n : nat)
| Text (s : string).

Module Obj.

Definition t : Type := list (string * Value).

(** What [obj[key]] evaluates to. *)
Inductive Any : Type :=
| Undefined
| Prim (v : Value)
| Function (name : string)
| ObjectPrototype.

(** The methods of [Object.prototype], by property key, with the name of
    the function found there. *)
Definition builtins : list (string * string) :=
  [ ("constructor", "Object");
    ("__defineGetter__", "__defineGetter__");
    ("__defineSetter__", "__defineSetter__");
    ("hasOwnProperty", "hasOwnProperty");
    ("__lookupGetter__", "__lookupGetter__");
    ("__lookupSetter__", "__lookupSetter__");
    ("isPrototypeOf", "isPrototypeOf");
    ("propertyIsEnumerable", "propertyIsEnumerable");
    ("toString", "toString");
    ("valueOf", "valueOf");
    ("toLocaleString", "toLocaleString") ].

Fixpoint assoc {B : Type} (key : string) (l : list (string * B)) : option B :=
  match l with
  | [] => None
  | (k, v) :: r => if String.eqb key k then Some v else assoc key r
  end.

(** [Object.prototype[key]]: a method, or the accessor [__proto__], whose
    getter returns the prototype of the receiver. *)
Definition inherited (key : string) : Any :=
  match assoc key builtins with
  | Some name => Function name
  | None => if String.eqb key "__proto__" then ObjectPrototype else Undefined
  end.

(** [obj[key]]: an own property, else the prototype's. *)
Definition get (obj : t) (key : string) : Any :=
  match assoc key obj with
  | Some v => Prim v
  | None => inherited key
  end.

Fixpoint replace (key : string) (v : Value) (obj : t) : t :=
  match obj with
  | [] => []
  | (k, w) :: r =>
      if String.eqb key k then (k, v) :: r else (k, w) :: replace key v r
  end.

(** [obj[key] = v] for a primitive [v]: an own property is overwritten in
    place; the setter of [__proto__] ignores a primitive; any other key
    becomes a new own property, the last one created. *)
Definition set (obj : t) (key : string) (v : Value) : t :=
  match assoc key obj with
  | Some _ => replace key v obj
  | None => if String.eqb key "__proto__" then obj else obj ++ [(key, v)]
  end.

(** What a built-in function converts to (Node.js). *)
Definition nativeSource (name : string) : string :=
  ("function " ++ name ++ "() { [native code] }")%string.

(** [(x || 0) + 1]. *)
Definition orZeroPlusOne (x : Any) : Value :=
  match x with
  | Undefined => Num 1
  | Prim (Num 0) => Num 1
  | Prim (Num n) => Num (n + 1)
  | Prim (Text EmptyString) => Num 1
  | Prim (Text s) => Text (s ++ "1")
  | Function name => Text (nativeSource name ++ "1")
  | ObjectPrototype => Text "[object Object]1"
  end.

(** The array index a property key stands for: the key is the decimal
    numeral, without sign or leading zero, of an integer below 2^32 - 1. *)
Definition arrayIndex (key : string) : option N :=
  match NilEmpty.uint_of_string key with
  | Some d =>
      let n := N.of_uint d in
      if String.eqb (NilZero.string_of_uint (N.to_uint n)) key
         && (n <? 4294967295)%N
      then Some n else None
  | None => None
  end.

Definition isIndex (e : string * Value) : bool :=
  match arrayIndex (fst e) with Some _ => true | None => false end.

Definition indexOf (e : string * Value) : N :=
  match arrayIndex (fst e) with Some n => n | None => 0%N end.

(** [Object.entries(obj)]: the array-index keys in ascending numeric order,
    then the other keys in creation order. *)
Definition entries (obj : t) : list (string * Value) :=
  Js.sort (fun x y => (indexOf y <? indexOf x)%N) (filter isIndex obj)
  ++ filter (fun e => negb (isIndex e)) obj.

End Obj.

(** ** The analyzer: word frequency *)

(** The comparison function [(a, b) => b[1] - a[1]]: the difference of two
    numbers, and [NaN] ([None]) as soon as one operand is a string that is
    no numeric literal.  A stored string starts with [function] (see
    [stored_text_is_source]), so it is none. *)
Definition compareFn (a b : string * Value) : option Z :=
  match snd b, snd a with
  | Num m, Num n => Some (Z.of_nat m - Z.of_nat n)%Z
  | _, _ => None
  end.

(** The test [Array.prototype.sort] makes on what [compareFn] returns:
    [a] goes after [b] when the result is positive; [NaN] counts as [+0]. *)
Definition goesAfter (a b : string * Value) : bool :=
  match compareFn a b with
  | Some d => (0 <? d)%Z
  | None => false
  end.

Definition stopWords : list string := ["the"; "and"; "is"; "in"; "to"; "of"].

(** The body of [words.forEach]. *)
Definition countWord (stop : list string) (frequency : Obj.t) (word : string)
  : Obj.t :=
  if negb (Js.has stop word)
  then Obj.set frequency word (Obj.orZeroPlusOne (Obj.get frequency word))
  else frequency.

(** The words the text is scanned into. *)
Definition lexicalWords (text : string) : list string :=
  Js.orEmpty (Js.matchWords (Js.toLowerCase text)).

(** [calculateWordFrequency] for a stop-word set [stop]. *)
Definition frequencyWith (stop : list string) (text : string)
  : list (string * Value) :=
  let words := lexicalWords text in
  let frequency := fold_left (countWord stop) words [] in
  firstn 20
    (Js.sort goesAfter (Obj.entries frequency)).

Definition calculateWordFrequency (text : string) : list (string * Value) :=
  frequencyWith stopWords text.

(** ** The extractor

    [pdf-parse], [pdf-to-img] and [tesseract.js] are outside the repository:
    what they answer is a parameter of the model.  A promise settles to an
    [Outcome]; a computation is a [Task], which also records the library
    calls it makes, in order. *)

Definition Buffer : Type := list Byte.byte.

(** What a [catch] clause receives: an error object with its [message], a
    string thrown as it is (as any value would be that has no [message]),
    [null] or [undefined]. *)
Inductive Thrown : Type :=
| ErrorObj (message : string)
| ThrownString (value : string)
| ThrownNull
| ThrownUndefined.

Inductive Outcome (A : Type) : Type :=
| Resolved (a : A)
| Rejected (e : Thrown).
Arguments Resolved {A} a.
Arguments Rejected {A} e.

(** What [pdfParse] resolves to. *)
Record PdfData : Type := mkPdfData { text : string }.

(** A page as [fromBuffer] yields it: [await page.data] is the image. *)
Record Page : Type := mkPage { data : Outcome Buffer }.

(** The libraries.  [fromBuffer] is the module-level variable that the
    dynamic [import('pdf-to-img')] assigns: [None] while it is undefined.
    [recognize] gives the [data.text] of what [Tesseract.recognize]
    resolves to. *)
Record Libraries : Type := mkLibraries {
  pdfParse : Buffer -> Outcome PdfData;
  fromBuffer : option (Buffer -> Outcome (list Page));
  recognize : Buffer -> string -> Outcome string
}.

Inductive Call : Type :=
| CallPdfParse (buffer : Buffer)
| CallFromBuffer (buffer : Buffer)
| CallRecognize (image : Buffer) (lang : string).

Definition Task (A : Type) : Type := list Call * Outcome A.

Definition ret {A : Type} (a : A) : Task A := ([], Resolved a).

Definition throw {A : Type} (e : Thrown) : Task A := ([], Rejected e).

Definition bind {A B : Type} (m : Task A) (k : A -> Task B) : Task B :=
  match m with
  | (calls, Resolved a) => let (more, r) := k a in (calls ++ more, r)
  | (calls, Rejected e) => (calls, Rejected e)
  end.

(** [await] of a promise that a library call returned. *)
Definition call {A : Type} (c : Call) (answer : Outcome A) : Task A :=
  ([c], answer).

(** [await] of a value at hand. *)
Definition await {A : Type} (answer : Outcome A) : Task A := ([], answer).

(** [try { body } catch (error) { handler }]. *)
Definition tryCatch {A : Type} (body : Task A) (handler : Thrown -> Task A)
  : Task A :=
  match body with
  | (calls, Rejected e) => let (more, r) := handler e in (calls ++ more, r)
  | settled => settled
  end.

Notation "x <- m ;; k" := (bind m (fun x => k))
  (at level 61, m at next level, right associativity).

(** [error.message]: the message of an error object, [undefined] ([None])
    on a string, and on [null] and [undefined] the [TypeError] that reading
    a property of them throws. *)
Definition readMessage (error : Thrown) : Outcome (option string) :=
  match error with
  | ErrorObj message => Resolved (Some message)
  | ThrownString _ => Resolved None
  | ThrownNull =>
      Rejected (ErrorObj "Cannot read properties of null (reading 'message')")
  | ThrownUndefined =>
      Rejected (ErrorObj "Cannot read properties of undefined (reading 'message')")
  end.

(** [`${x}`] for a string or [undefined]. *)
Definition interpolate (x : option string) : string :=
  match x with
  | Some s => s
  | None => "undefined"
  end.

(** The call [fromBuffer(buffer)]: a [TypeError] while the variable is
    undefined. *)
Definition callFromBuffer (libs : Libraries) (buffer : Buffer)
  : Task (list Page) :=
  match fromBuffer libs with
  | Some render => call (CallFromBuffer buffer) (render buffer)
  | None => throw (ErrorObj "fromBuffer is not a function")
  end.

(** The [for ... of] loop over the pages, with the text gathered so far. *)
Fixpoint ocrPages (libs : Libraries) (pages : list Page) (fullText : string)
  : Task string :=
  match pages with
  | [] => ret fullText
  | page :: rest =>
      image <- await (data page) ;;
      text <- call (CallRecognize image "eng") (recognize libs image "eng") ;;
      ocrPages libs rest (fullText ++ (text ++ String "010" EmptyString))%string
  end.

(** The fallback: every page to an image, every image through OCR. *)
Definition ocrFallback (libs : Libraries) (buffer : Buffer) : Task string :=
  pages <- callFromBuffer libs buffer ;;
  ocrPages libs pages "".

(** What the [catch] clause of [processPDF] throws: the new error, or the
    [TypeError] of reading [error.message]. *)
Definition processingFailed (error : Thrown) : Thrown :=
  match readMessage error with
  | Resolved message =>
      ErrorObj ("Processing failed: " ++ interpolate message)%string
  | Rejected typeError => typeError
  end.

Definition processPDF (libs : Libraries) (buffer : Buffer) : Task string :=
  tryCatch
    (pdfText <- call (CallPdfParse buffer) (pdfParse libs buffer) ;;
     if 50 <? String.length (Js.trim (text pdfText))
     then ret (text pdfText)
     else ocrFallback libs buffer)
    (fun error => throw (processingFailed error)).

(** ** The route [POST /api/analyze]

    The handler behind [upload.single('file')]: [multer] has put the
    uploaded file, if any, in [req.file]. *)
Module Server.

Record File : Type := mkFile { mimetype : string; buffer : Buffer }.

Record Request : Type := mkRequest { file : option File }.

(** The object given to [res.json]: [{ error }], where the key is dropped
    when the value is [undefined], or [{ stats, wordFrequency }]. *)
Inductive Body : Type :=
| ErrorBody (error : option string)
| AnalysisBody (stats : Stats) (wordFrequency : list (string * Value)).

Record Response : Type := mkResponse { status : nat; body : Body }.

(** [limits: { fileSize: 10 * 1024 * 1024 }], in bytes. *)
Definition fileSizeLimit : N := (10 * 1024 * 1024)%N.

Definition analyzeRoute (libs : Libraries) (req : Request) : Task Response :=
  tryCatch
    (match file req with
     | None => ret (mkResponse 400 (ErrorBody (Some "No file uploaded")))
     | Some upload =>
         if negb (String.eqb (mimetype upload) "application/pdf")
         then ret (mkResponse 400 (ErrorBody (Some "Only PDF files allowed")))
         else
           text <- processPDF libs (buffer upload) ;;
           let stats := calculateStats text in
           let wordFrequency := calculateWordFrequency text in
           ret (mkResponse 200 (AnalysisBody stats wordFrequency))
     end)
    (fun error =>
       message <- await (readMessage error) ;;
       ret (mkResponse 500 (ErrorBody message))).

End Server.

(** ** The page: [handleUpload] of [App.jsx]

    The state of the component is what the three [useState] hooks hold; a
    run of [handleUpload] is the list of what it does, in order. *)
Module App.

(** What [axios.post] settles to: a response, or an error that carries the
    response when there was one. *)
Inductive AxiosOutcome : Type :=
| Fulfilled (response : Server.Response)
| Failed (response : option Server.Response).

(** [axios] with its default [validateStatus]: a status from 200 to 299
    fulfils, any other rejects with the response; no response at all (the
    server is not reached) rejects without one. *)
Definition settle (answer : option Server.Response) : AxiosOutcome :=
  match answer with
  | None => Failed None
  | Some response =>
      if (200 <=? Server.status response) && (Server.status response <? 300)
      then Fulfilled response
      else Failed (Some response)
  end.

Record State : Type := mkState {
  stats : option Stats;
  wordFrequency : option (list (string * Value));
  loading : bool
}.

(** The state on first render. *)
Definition initial : State := mkState None (Some []) false.

Inductive Effect : Type :=
| SetLoading (value : bool)
| Post (url : string) (upload : Server.File)
| SetStats (value : option Stats)
| SetWordFrequency (value : option (list (string * Value)))
| ToastSuccess (message : string)
| ToastError (message : string).

(** [response.data.stats] and [response.data.wordFrequency]: [undefined]
    when the body has no such key. *)
Definition dataStats (response : Server.Response) : option Stats :=
  match Server.body response with
  | Server.AnalysisBody stats _ => Some stats
  | Server.ErrorBody _ => None
  end.

Definition dataWordFrequency (response : Server.Response)
  : option (list (string * Value)) :=
  match Server.body response with
  | Server.AnalysisBody _ wordFrequency => Some wordFrequency
  | Server.ErrorBody _ => None
  end.

(** [error.response?.data?.error]. *)
Definition responseError (response : option Server.Response) : option string :=
  match response with
  | None => None
  | Some r =>
      match Server.body r with
      | Server.ErrorBody error => error
      | Server.AnalysisBody _ _ => None
      end
  end.

(** [x || 'Analysis failed']: [undefined] and the empty string are falsy. *)
Definition orAnalysisFailed (x : option string) : string :=
  match x with
  | Some (String c r) => String c r
  | _ => "Analysis failed"
  end.

Definition handleUpload (outcome : AxiosOutcome) (upload : Server.File)
  : list Effect :=
  [SetLoading true; Post "http://localhost:5000/api/analyze" upload]
  ++ match outcome with
     | Fulfilled response =>
         [SetStats (dataStats response);
          SetWordFrequency (dataWordFrequency response);
          ToastSuccess "Analysis complete!"]
     | Failed response => [ToastError (orAnalysisFailed (responseError response))]
     end
  ++ [SetLoading false].

(** The state after a list of effects. *)
Definition apply (s : State) (e : Effect) : State :=
  match e with
  | SetLoading value => mkState (stats s) (wordFrequency s) value
  | SetStats value => mkState value (wordFrequency s) (loading s)
  | SetWordFrequency value => mkState (stats s) value (loading s)
  | Post _ _ | ToastSuccess _ | ToastError _ => s
  end.

Definition run (effects : list Effect) (s : State) : State :=
  fold_left apply effects s.

(** The toasts a list of effects shows. *)
Definition toasts (effects : list Effect) : list Effect :=
  filter (fun e => match e with
                   | ToastSuccess _ | ToastError _ => true
                   | _ => false
                   end) effects.

(** One upload against the server: the request the page sends for a file
    carries it as [req.file], as long as the file is below the size limit
    of [multer] ([fileSizeLimit]). *)
Definition upload (libs : Libraries) (f : Server.File) : list Effect :=
  let answer :=
    match snd (Server.analyzeRoute libs (Server.mkRequest (Some f))) with
    | Resolved response => Some response
    | Rejected _ => None
    end in
  handleUpload (settle answer) f.

End App.

(** ** Vocabulary of the statements *)

(** [x] occurs in [l] at a position before an occurrence of [y]. *)
Definition Before {A : Type} (l : list A) (x y : A) : Prop :=
  exists l1 l2 l3, l = l1 ++ x :: l2 ++ y :: l3.

(** The sum of the lengths of a list of strings. *)
Definition totalLength (l : list string) : nat :=
  list_sum (map String.length l).

(** Every code unit of [s] satisfies [p]. *)
Fixpoint allUnits (p : ascii -> bool) (s : string) : bool :=
  match s with
  | EmptyString => true
  | String c r => p c && allUnits p r
  end.

(** What an entry of the frequency list has for a word: it is not empty,
    made of word characters, in lower case, and no stop word. *)
Definition WellFormedWord (stop : list string) (w : string) : Prop :=
  w <> EmptyString
  /\ allUnits Js.isWordChar w = true
  /\ Js.toLowerCase w = w
  /\ Js.has stop w = false.

(** What is stored: a positive number, or a string that starts with the
    text of a built-in function. *)
Definition storable (v : Value) : Prop :=
  match v with
  | Num n => 0 < n
  | Text s => String.prefix "function " s = true
  end.

(** The count of [a] is a number at least the count of [b]. *)
Definition countGe (a b : string * Value) : Prop :=
  match snd a, snd b with
  | Num m, Num n => n <= m
  | _, _ => False
  end.

(** The counts do not increase along the list. *)
Definition SortedByCount (l : list (string * Value)) : Prop :=
  forall a b, Before l a b -> countGe a b.

(** [w1] is first seen before [w2] in [ws]: it occurs at a place before
    which [w2] does not occur. *)
Definition FirstSeenBefore (ws : list string) (w1 w2 : string) : Prop :=
  w1 <> w2 /\ exists pre post, ws = pre ++ w1 :: post /\ ~ In w2 pre.

(** A tie-break by first-seen order: of two entries with the same count the
    one first seen in the words of the text comes first. *)
Definition FirstSeenTieBreak (text : string) : Prop :=
  forall w1 w2 c,
    Before (calculateWordFrequency text) (w1, c) (w2, c) ->
    FirstSeenBefore (lexicalWords text) w1 w2.

(** The order of the own keys of an object: array indices first, in
    ascending numeric order, then the other keys as first seen. *)
Definition KeyOrder (ws : list string) (w1 w2 : string) : Prop :=
  match Obj.arrayIndex w1, Obj.arrayIndex w2 with
  | Some i, Some j => (i < j)%N
  | Some _, None => True
  | None, Some _ => False
  | None, None => FirstSeenBefore ws w1 w2
  end.

(** The words that get an entry of the [frequency] object: the words of the
    text, without the stop words and [__proto__], each once. *)
Definition countedWords (stop : list string) (ws : list string) : list string :=
  nodup string_dec
    (filter (fun w => negb (Js.has stop w) && negb (String.eqb w "__proto__")) ws).

(** The number of non-empty strings of a list. *)
Definition nonEmpty (l : list string) : nat :=
  List.length (filter (fun word => 0 <? String.length word) l).

(** [msg] has [m] as a substring. *)
Definition Contains (msg m : string) : Prop :=
  exists pre post, msg = (pre ++ m ++ post)%string.

Definition newline : string := String "010" EmptyString.

(** The texts of the pages, in page order, each followed by a newline. *)
Fixpoint pagesText (texts : list string) : string :=
  match texts with
  | [] => EmptyString
  | t :: rest => ((t ++ newline) ++ pagesText rest)%string
  end.

(** A failure raised while the pages are read: awaiting the image of a page
    or recognising it fails, every page before it having gone through. *)
Inductive PageFails (libs : Libraries) : list Page -> Thrown -> Prop :=
| data_fails page rest e :
    data page = Rejected e -> PageFails libs (page :: rest) e
| recognize_fails page rest image e :
    data page = Resolved image ->
    recognize libs image "eng" = Rejected e ->
    PageFails libs (page :: rest) e
| later_page_fails page rest image t e :
    data page = Resolved image ->
    recognize libs image "eng" = Resolved t ->
    PageFails libs rest e ->
    PageFails libs (page :: rest) e.

(** A failure raised inside the OCR path. *)
Inductive OcrFails (libs : Libraries) (buffer : Buffer) : Thrown -> Prop :=
| renderer_undefined :
    fromBuffer libs = None ->
    OcrFails libs buffer (ErrorObj "fromBuffer is not a function")
| render_fails render e :
    fromBuffer libs = Some render ->
    render buffer = Rejected e ->
    OcrFails libs buffer e
| page_fails render pages e :
    fromBuffer libs = Some render ->
    render buffer = Resolved pages ->
    PageFails libs pages e ->
    OcrFails libs buffer e.

(** A failure raised inside one of the two extraction paths. *)
Inductive ExtractionFails (libs : Libraries) (buffer : Buffer) : Thrown -> Prop :=
| parse_fails e :
    pdfParse libs buffer = Rejected e -> ExtractionFails libs buffer e
| ocr_fails parsed e :
    pdfParse libs buffer = Resolved parsed ->
    String.length (Js.trim (text parsed)) <= 50 ->
    OcrFails libs buffer e ->
    ExtractionFails libs buffer e.

(** The message of a failure as whoever raised it gave it: the [message] of
    an error object, the string when a string is thrown; [null] and
    [undefined] have none. *)
Definition failureMessage (e : Thrown) : option string :=
  match e with
  | ErrorObj message => Some message
  | ThrownString value => Some value
  | ThrownNull | ThrownUndefined => None
  end.

(** Every failure raised inside a path comes out as one error whose message
    contains the message of the failure, and no text. *)
Definition WrapsEveryFailure (libs : Libraries) (buffer : Buffer) : Prop :=
  forall e m,
    ExtractionFails libs buffer e ->
    failureMessage e = Some m ->
    exists msg,
      snd (processPDF libs buffer) = Rejected (ErrorObj msg)
      /\ Contains msg m
      /\ forall t, snd (processPDF libs buffer) <> Resolved t.

(** ** Sample documents *)

(** A parser that rejects with a string instead of an error object. *)
Definition boomLibs : Libraries :=
  {| pdfParse := fun _ => Rejected (ThrownString "boom");
     fromBuffer := None;
     recognize := fun _ _ => Rejected (ThrownString "no image") |}.

(** A parser that rejects with [null]. *)
Definition nullLibs : Libraries :=
  {| pdfParse := fun _ => Rejected ThrownNull;
     fromBuffer := None;
     recognize := fun _ _ => Rejected (ThrownString "no image") |}.

Definition page1 : Buffer := [Byte.x01].
Definition page2 : Buffer := [Byte.x02].
Definition page3 : Buffer := [Byte.x03].

(** A scan of three pages: nothing to parse, the third page unreadable when
    [broken] is set. *)
Definition scanLibs (broken : bool) : Libraries :=
  {| pdfParse := fun _ => Resolved (mkPdfData "  ");
     fromBuffer :=
       Some (fun _ => Resolved [mkPage (Resolved page1);
                                mkPage (Resolved page2);
                                mkPage (Resolved page3)]);
     recognize := fun image _ =>
       match image with
       | [Byte.x01] => Resolved "first"
       | [Byte.x02] => Resolved "second"
       | _ => if broken then Rejected (ErrorObj "worker terminated")
              else Resolved "third"
       end |}.

(** A scan that [pdf-to-img] renders to no page at all. *)
Definition emptyScanLibs : Libraries :=
  {| pdfParse := fun _ => Resolved (mkPdfData "");
     fromBuffer := Some (fun _ => Resolved []);
     recognize := fun _ _ => Rejected (ThrownString "no image") |}.

(** A document with embedded text, before [pdf-to-img] is loaded. *)
Definition digitalLibs : Libraries :=
  {| pdfParse := fun _ =>
       Resolved (mkPdfData " A page of text that a parser reads without any rendering. ");
     fromBuffer := None;
     recognize := fun _ _ => Rejected (ThrownString "no image") |}.

(** * Properties of the statistics *)

Section StatsFacts.

Variable cls : ascii -> bool.

Lemma reduce_lengths (l : list string) (acc : nat) :
  fold_left (fun acc word => acc + String.length word) l acc
  = acc + totalLength l.
Proof.
  revert acc.
  induction l as [| w l IH]; intros acc; cbn [fold_left].
  - unfold totalLength; simpl; lia.
  - rewrite IH. unfold totalLength; simpl. lia.
Qed.

(** The pieces of a split hold exactly the code units outside the class. *)
Lemma splitRuns_totalLength (inRun : bool) (s : string) :
  totalLength (Js.splitRuns cls inRun s) = String.length (Js.remove cls s).
Proof.
  revert inRun.
  induction s as [| c r IH]; intros inRun; simpl.
  - reflexivity.
  - destruct (cls c).
    + destruct inRun; [apply IH |].
      unfold totalLength; simpl. apply (IH true).
    + specialize (IH false).
      destruct (Js.splitRuns cls false r) as [| piece pieces];
        unfold totalLength in *; simpl in *; lia.
Qed.

Lemma remove_length (s : string) :
  String.length (Js.remove cls s) <= String.length s.
Proof.
  induction s as [| c r IH]; simpl; [lia |].
  destruct (cls c); simpl; lia.
Qed.

End StatsFacts.

Lemma nonempty_count_le_totalLength (l : list string) :
  List.length (filter (fun word => 0 <? String.length word) l) <= totalLength l.
Proof.
  induction l as [| w l IH]; unfold totalLength in *; simpl; [lia |].
  destruct (Nat.ltb_spec 0 (String.length w)); simpl; lia.
Qed.

Lemma nonempty_totalLength (l : list string) :
  totalLength (filter (fun word => 0 <? String.length word) l) = totalLength l.
Proof.
  induction l as [| w l IH]; unfold totalLength in *; simpl; [lia |].
  destruct (Nat.ltb_spec 0 (String.length w)); simpl; lia.
Qed.

(** [avgWordLength] is the quotient when there is a word, and 0 when there
    is none. *)
Lemma avgWordLength_cases (text : string) :
  let words :=
    filter (fun word => 0 <? String.length word) (Js.split Js.isWhiteSpace text) in
  (words = [] /\ avgWordLength (calculateStats text) = Js.Fin 0)
  \/ (words <> [] /\
      avgWordLength (calculateStats text)
      = Js.Fin (Z.of_nat (totalLength words) # Pos.of_nat (List.length words))).
Proof.
  intros words. unfold calculateStats; cbn [avgWordLength]. fold words.
  rewrite reduce_lengths, Nat.add_0_l.
  destruct words as [| w ws] eqn:E.
  - left. split; reflexivity.
  - right. split; [discriminate |].
    assert (Hw : 0 < String.length w).
    { assert (Hin : In w words) by (rewrite E; left; reflexivity).
      apply filter_In in Hin. destruct Hin as [_ Hin].
      now apply Nat.ltb_lt in Hin. }
    unfold Js.div. cbn [List.length].
    unfold Js.or, Qeq_bool. cbn [Qnum Qden].
    destruct (Z.eqb_spec (Z.of_nat (totalLength (w :: ws)) * 1) (0 * Z.pos (Pos.of_nat (S (List.length ws))))) as [H0 | H0].
    + exfalso. unfold totalLength in H0. simpl in H0. lia.
    + reflexivity.
Qed.

(** ** C3 *)

(** C3: for every text with no whitespace-delimited word, [calculateStats]
    gives [avgWordLength] 0: the quotient 0/0 is replaced by 0. *)
Theorem avgWordLength_zero_without_words (text : string) :
  wordCount (calculateStats text) = 0 ->
  avgWordLength (calculateStats text) = Js.Fin 0.
Proof.
  intros H.
  destruct (avgWordLength_cases text) as [[_ Havg] | [Hne _]]; [exact Havg |].
  exfalso. apply Hne. unfold calculateStats in H; cbn [wordCount] in H.
  now apply length_zero_iff_nil.
Qed.

Lemma avgWordLength_zero_without_words_witness :
  wordCount (calculateStats (String "009" (String " " (String "010" EmptyString)))) = 0
  /\ avgWordLength (calculateStats (String "009" (String " " (String "010" EmptyString))))
     = Js.Fin 0.
Proof.
  split; [reflexivity |].
  apply (avgWordLength_zero_without_words
           (String "009" (String " " (String "010" EmptyString)))).
  reflexivity.
Defined.

(** ** C10 *)

(** C10: for every text, [wordCount <= charCountWithoutSpaces <= charCount]. *)
Theorem stats_counts_ordered (text : string) :
  wordCount (calculateStats text) <= charCountWithoutSpaces (calculateStats text)
  /\ charCountWithoutSpaces (calculateStats text) <= charCount (calculateStats text).
Proof.
  unfold calculateStats; cbn [wordCount charCountWithoutSpaces charCount].
  split.
  - rewrite <- (splitRuns_totalLength Js.isWhiteSpace false text).
    apply nonempty_count_le_totalLength.
  - apply remove_length.
Qed.

(** * Properties shared by both analysis functions *)

Lemma fold_left_pointwise {A B : Type} (f g : A -> B -> A) (l : list B) (a : A) :
  (forall x y, f x y = g x y) -> fold_left f l a = fold_left g l a.
Proof.
  intros Hfg. revert a.
  induction l as [| y l IH]; intros a; simpl; [reflexivity |].
  now rewrite Hfg, IH.
Qed.

Lemma has_same_members (stop1 stop2 : list string) (w : string) :
  (forall x, In x stop1 <-> In x stop2) -> Js.has stop1 w = Js.has stop2 w.
Proof.
  intros Hsame. unfold Js.has.
  apply eq_true_iff_eq. rewrite !existsb_exists.
  split; intros [x [Hin Heq]]; exists x; split; try exact Heq; now apply Hsame.
Qed.

(** ** C5 *)

(** C5: both analysis functions give a result on every string, the average
    being a finite number and never [NaN]; on the empty string the result
    is the all-zero record and the empty frequency list. *)
Theorem analyzer_total (text : string) :
  (exists stats frequencies q,
      calculateStats text = stats
      /\ calculateWordFrequency text = frequencies
      /\ avgWordLength stats = Js.Fin q)
  /\ calculateStats "" = mkStats 0 0 0 0 (Js.Fin 0)
  /\ calculateWordFrequency "" = [].
Proof.
  split; [| split; reflexivity].
  destruct (avgWordLength_cases text) as [[_ Havg] | [_ Havg]];
    eexists; eexists; eexists; (split; [reflexivity |]);
    (split; [reflexivity |]); exact Havg.
Qed.

(** ** C8 *)


(** ** C9 *)

(** C9: on the same text the statistics are the same record, and with
    stop-word sets of the same members the frequency lists are the same
    list: neither function reads anything but its arguments. *)
Theorem analyzer_deterministic (text1 text2 : string) (stop1 stop2 : list string) :
  text1 = text2 ->
  (forall w, In w stop1 <-> In w stop2) ->
  calculateStats text1 = calculateStats text2
  /\ frequencyWith stop1 text1 = frequencyWith stop2 text2.
Proof.
  intros <- Hsame. split; [reflexivity |].
  unfold frequencyWith.
  rewrite (fold_left_pointwise (countWord stop1) (countWord stop2)); [reflexivity |].
  intros frequency word. unfold countWord.
  now rewrite (has_same_members stop1 stop2 word Hsame).
Qed.

Lemma analyzer_deterministic_witness :
  (forall w, In w ["to"; "or"] <-> In w ["or"; "to"; "or"])
  /\ calculateStats "to be, or not to be" = calculateStats "to be, or not to be"
  /\ frequencyWith ["to"; "or"] "to be, or not to be"
     = frequencyWith ["or"; "to"; "or"] "to be, or not to be".
Proof.
  assert (H : forall w, In w ["to"; "or"] <-> In w ["or"; "to"; "or"])
    by (intros w; simpl; tauto).
  split; [exact H |].
  exact (analyzer_deterministic "to be, or not to be" "to be, or not to be"
           ["to"; "or"] ["or"; "to"; "or"] eq_refl H).
Defined.

(** * Properties of the extractor *)

Lemma append_assoc (a b c : string) : ((a ++ b) ++ c = a ++ (b ++ c))%string.
Proof.
  induction a as [| x a IH]; simpl; [reflexivity | now rewrite IH].
Qed.

Section ExtractorFacts.

Variable libs : Libraries.

(** The loop, when every page goes through. *)
Lemma ocrPages_all_read (pages : list Page) (images : list Buffer)
      (texts : list string) (fullText : string) :
  map data pages = map Resolved images ->
  map (fun image => recognize libs image "eng") images = map Resolved texts ->
  ocrPages libs pages fullText
  = (map (fun image => CallRecognize image "eng") images,
     Resolved (fullText ++ pagesText texts)%string).
Proof.
  revert images texts fullText.
  induction pages as [| page rest IH]; intros images texts fullText Hdata Hrec.
  - destruct images; [| discriminate Hdata].
    destruct texts; [| discriminate Hrec].
    simpl. unfold ret. f_equal. f_equal.
    induction fullText as [| x a IHa]; simpl; [reflexivity | now rewrite <- IHa].
  - destruct images as [| image images]; [discriminate Hdata |].
    destruct texts as [| t texts]; [discriminate Hrec |].
    simpl in Hdata, Hrec.
    injection Hdata as Hpage Hdata. injection Hrec as Himage Hrec.
    cbn [ocrPages]. rewrite Hpage.
    unfold await, call, bind; cbn beta iota. rewrite Himage; cbn beta iota.
    rewrite (IH images texts _ Hdata Hrec).
    simpl. f_equal. f_equal. fold newline.
    now rewrite append_assoc.
Qed.

(** The loop, when a page fails: the failure is the result, whatever had
    been gathered. *)
Lemma ocrPages_fails (pages : list Page) (e : Thrown) (fullText : string) :
  PageFails libs pages e -> snd (ocrPages libs pages fullText) = Rejected e.
Proof.
  intros Hfail. revert fullText.
  induction Hfail as [page rest e Hd | page rest image e Hd Hr
                      | page rest image t e Hd Hr Hrest IH];
    intros fullText; cbn [ocrPages]; rewrite Hd; unfold await, call, bind;
    cbn beta iota; rewrite ?Hr; cbn beta iota.
  - reflexivity.
  - reflexivity.
  - specialize (IH (fullText ++ (t ++ String "010" EmptyString))%string).
    destruct (ocrPages libs rest _) as [calls r]. simpl in *. exact IH.
Qed.

Lemma ocrFallback_fails (buffer : Buffer) (e : Thrown) :
  OcrFails libs buffer e -> snd (ocrFallback libs buffer) = Rejected e.
Proof.
  intros [Hnone | render e' Hsome Hrender | render pages e' Hsome Hrender Hpages];
    unfold ocrFallback, callFromBuffer.
  - rewrite Hnone. reflexivity.
  - rewrite Hsome. unfold call, bind. rewrite Hrender. reflexivity.
  - rewrite Hsome. unfold call, bind. rewrite Hrender.
    pose proof (ocrPages_fails pages e' "" Hpages) as H.
    destruct (ocrPages libs pages "") as [calls r]. simpl in *. exact H.
Qed.

(** What [processPDF] does once the parse has given its text. *)
Lemma processPDF_parsed (buffer : Buffer) (parsed : PdfData) :
  pdfParse libs buffer = Resolved parsed ->
  processPDF libs buffer
  = if 50 <? String.length (Js.trim (text parsed))
    then ([CallPdfParse buffer], Resolved (text parsed))
    else (CallPdfParse buffer :: fst (ocrFallback libs buffer),
          match snd (ocrFallback libs buffer) with
          | Resolved t => Resolved t
          | Rejected e => Rejected (processingFailed e)
          end).
Proof.
  intros Hparse. unfold processPDF. rewrite Hparse.
  unfold call, bind at 1.
  destruct (50 <? String.length (Js.trim (text parsed))); [reflexivity |].
  destruct (ocrFallback libs buffer) as [calls [t | e]]; simpl;
    rewrite ?app_nil_r; reflexivity.
Qed.

End ExtractorFacts.

(** ** C1 *)

(** C1: when the text of the direct parse is longer than 50 code units after
    trimming, [processPDF] resolves to that text and its only library call
    is the parse; when it is 50 or shorter, [processPDF] runs the OCR
    fallback: its calls are the parse followed by those of the fallback,
    and its result is the fallback's. *)
Theorem processPDF_threshold (libs : Libraries) (buffer : Buffer) (parsed : PdfData) :
  pdfParse libs buffer = Resolved parsed ->
  (50 < String.length (Js.trim (text parsed)) ->
   processPDF libs buffer = ([CallPdfParse buffer], Resolved (text parsed)))
  /\ (String.length (Js.trim (text parsed)) <= 50 ->
      fst (processPDF libs buffer)
      = CallPdfParse buffer :: fst (ocrFallback libs buffer)
      /\ snd (processPDF libs buffer)
         = match snd (ocrFallback libs buffer) with
           | Resolved t => Resolved t
           | Rejected e => Rejected (processingFailed e)
           end).
Proof.
  intros Hparse. rewrite (processPDF_parsed libs buffer parsed Hparse).
  split; intros Hlen.
  - apply Nat.ltb_lt in Hlen. now rewrite Hlen.
  - apply Nat.ltb_ge in Hlen. rewrite Hlen. split; reflexivity.
Qed.

Lemma processPDF_threshold_witness :
  processPDF digitalLibs []
  = ([CallPdfParse []],
     Resolved " A page of text that a parser reads without any rendering. ")
  /\ fst (processPDF (scanLibs false) [])
     = [CallPdfParse []; CallFromBuffer [];
        CallRecognize page1 "eng"; CallRecognize page2 "eng";
        CallRecognize page3 "eng"].
Proof.
  split.
  - apply (processPDF_threshold digitalLibs []
             (mkPdfData " A page of text that a parser reads without any rendering. "));
      [reflexivity | vm_compute; lia].
  - apply (processPDF_threshold (scanLibs false) [] (mkPdfData "  "));
      [reflexivity | vm_compute; lia].
Defined.

(** ** C4 *)

(** A failure raised inside a path is what the [catch] clause receives. *)
Lemma processPDF_failure_result (libs : Libraries) (buffer : Buffer) (e : Thrown) :
  ExtractionFails libs buffer e ->
  snd (processPDF libs buffer) = Rejected (processingFailed e).
Proof.
  intros [e' Hparse | parsed e' Hparse Hlen Hocr].
  - unfold processPDF. rewrite Hparse. reflexivity.
  - rewrite (processPDF_parsed libs buffer parsed Hparse).
    apply Nat.ltb_ge in Hlen. rewrite Hlen. cbn [snd].
    now rewrite (ocrFallback_fails libs buffer e' Hocr).
Qed.

Lemma Contains_after (pre m : string) : Contains (pre ++ m) m.
Proof.
  exists pre, EmptyString. f_equal.
  induction m as [| x m IH]; simpl; [reflexivity | now rewrite <- IH].
Qed.

(** What the [catch] clause throws is always an error object, with a
    message that is not empty. *)
Lemma processingFailed_error (cause : Thrown) :
  exists c m, processingFailed cause = ErrorObj (String c m).
Proof.
  destruct cause; cbn; eexists; eexists; reflexivity.
Qed.

(** C4, as stated, fails for a parser that rejects with the string [boom]:
    [processPDF] rejects with [Processing failed: undefined], in which
    [boom] does not occur. *)
Lemma string_failure_message_lost : ~ WrapsEveryFailure boomLibs [].
Proof.
  intros Hwraps.
  assert (Hfail : ExtractionFails boomLibs [] (ThrownString "boom"))
    by (apply parse_fails; reflexivity).
  destruct (Hwraps (ThrownString "boom") "boom" Hfail eq_refl)
    as [msg [Hres [[pre [post Hmsg]] _]]].
  rewrite (processPDF_failure_result boomLibs [] _ Hfail) in Hres.
  cbn in Hres. injection Hres as <-.
  repeat (destruct pre as [| ? pre]; [discriminate Hmsg |];
          cbn in Hmsg; injection Hmsg as _ Hmsg).
  destruct pre; discriminate Hmsg.
Qed.

(** C4, amended: when a failure is raised inside the direct parse or inside
    the OCR path, [processPDF] rejects with one error and no text; when the
    failure is an error object, the message of that error is
    [Processing failed: ] followed by the message of the failure. *)
Theorem processPDF_wraps_error (libs : Libraries) (buffer : Buffer) (e : Thrown) :
  ExtractionFails libs buffer e ->
  (exists msg,
      snd (processPDF libs buffer) = Rejected (ErrorObj msg)
      /\ forall m, e = ErrorObj m ->
                   msg = ("Processing failed: " ++ m)%string /\ Contains msg m)
  /\ forall t, snd (processPDF libs buffer) <> Resolved t.
Proof.
  intros Hfail.
  pose proof (processPDF_failure_result libs buffer e Hfail) as Hres.
  split.
  - destruct (processingFailed_error e) as [c [rest Hform]].
    exists (String c rest). split; [now rewrite Hres, Hform |].
    intros m ->.
    assert (Hmsg : String c rest = ("Processing failed: " ++ m)%string)
      by (unfold processingFailed in Hform; cbn [readMessage interpolate] in Hform;
          congruence).
    rewrite Hmsg. split; [reflexivity | apply Contains_after].
  - intros t Ht. rewrite Hres in Ht. discriminate Ht.
Qed.

Lemma processPDF_wraps_error_witness :
  ExtractionFails (scanLibs true) [] (ErrorObj "worker terminated")
  /\ snd (processPDF (scanLibs true) [])
     = Rejected (ErrorObj "Processing failed: worker terminated")
  /\ forall t, snd (processPDF (scanLibs true) []) <> Resolved t.
Proof.
  assert (H : ExtractionFails (scanLibs true) [] (ErrorObj "worker terminated")).
  { apply (ocr_fails _ _ (mkPdfData "  ")); [reflexivity | vm_compute; lia |].
    eapply page_fails; [reflexivity | reflexivity |].
    eapply later_page_fails; [reflexivity | reflexivity |].
    eapply later_page_fails; [reflexivity | reflexivity |].
    eapply recognize_fails; reflexivity. }
  split; [exact H |].
  destruct (processPDF_wraps_error (scanLibs true) [] (ErrorObj "worker terminated") H)
    as [_ Hnone].
  split; [reflexivity | exact Hnone].
Defined.

(** ** C6 *)

(** C6: when [processPDF] takes the OCR fallback and every page is rendered
    and recognised, it resolves to the texts of the pages in page order,
    each followed by a newline, and the pages are recognised in that
    order. *)
Theorem ocr_text_in_page_order
        (libs : Libraries) (buffer : Buffer) (parsed : PdfData)
        (render : Buffer -> Outcome (list Page)) (pages : list Page)
        (images : list Buffer) (texts : list string) :
  pdfParse libs buffer = Resolved parsed ->
  String.length (Js.trim (text parsed)) <= 50 ->
  fromBuffer libs = Some render ->
  render buffer = Resolved pages ->
  map data pages = map Resolved images ->
  map (fun image => recognize libs image "eng") images = map Resolved texts ->
  processPDF libs buffer
  = (CallPdfParse buffer :: CallFromBuffer buffer
       :: map (fun image => CallRecognize image "eng") images,
     Resolved (pagesText texts)).
Proof.
  intros Hparse Hlen Hsome Hrender Hdata Hrec.
  rewrite (processPDF_parsed libs buffer parsed Hparse).
  apply Nat.ltb_ge in Hlen. rewrite Hlen.
  unfold ocrFallback, callFromBuffer. rewrite Hsome.
  unfold call, bind. rewrite Hrender.
  rewrite (ocrPages_all_read libs pages images texts "" Hdata Hrec).
  reflexivity.
Qed.

Lemma ocr_text_in_page_order_witness :
  processPDF (scanLibs false) []
  = ([CallPdfParse []; CallFromBuffer [];
      CallRecognize page1 "eng"; CallRecognize page2 "eng";
      CallRecognize page3 "eng"],
     Resolved (pagesText ["first"; "second"; "third"])).
Proof.
  apply (ocr_text_in_page_order (scanLibs false) [] (mkPdfData "  ")
           (fun _ => Resolved [mkPage (Resolved page1); mkPage (Resolved page2);
                               mkPage (Resolved page3)])
           [mkPage (Resolved page1); mkPage (Resolved page2); mkPage (Resolved page3)]
           [page1; page2; page3] ["first"; "second"; "third"]);
    solve [reflexivity | vm_compute; lia].
Defined.

(** * Order in lists *)

Section BeforeFacts.

Context {A : Type}.

Lemma Before_nil (x y : A) : ~ Before [] x y.
Proof.
  intros [l1 [l2 [l3 H]]]. destruct l1; discriminate H.
Qed.

Lemma Before_cons_iff (z : A) (l : list A) (x y : A) :
  Before (z :: l) x y <-> (x = z /\ In y l) \/ Before l x y.
Proof.
  split.
  - intros [l1 [l2 [l3 H]]]. destruct l1 as [| a l1]; simpl in H.
    + injection H as Hz Hl. left. split; [now symmetry |].
      rewrite Hl. apply in_or_app. right. left. reflexivity.
    + injection H as Hz Hl. right. exists l1, l2, l3. exact Hl.
  - intros [[Hx Hy] | [l1 [l2 [l3 H]]]].
    + destruct (in_split _ _ Hy) as [l2 [l3 Hl]].
      exists [], l2, l3. simpl. now rewrite Hx, Hl.
    + exists (z :: l1), l2, l3. simpl. now rewrite H.
Qed.

Lemma Before_In (l : list A) (x y : A) : Before l x y -> In x l /\ In y l.
Proof.
  induction l as [| z l IH]; [intros H; destruct (Before_nil _ _ H) |].
  rewrite Before_cons_iff. intros [[Hx Hy] | H].
  - split; [left; now symmetry | right; exact Hy].
  - destruct (IH H). split; right; assumption.
Qed.

Lemma Before_app_inv (l1 l2 : list A) (x y : A) :
  Before (l1 ++ l2) x y ->
  Before l1 x y \/ (In x l1 /\ In y l2) \/ Before l2 x y.
Proof.
  induction l1 as [| z l1 IH]; simpl.
  - intros H. right. right. exact H.
  - rewrite !Before_cons_iff. intros [[Hx Hy] | H].
    + apply in_app_or in Hy. destruct Hy as [Hy | Hy].
      * left. left. split; assumption.
      * right. left. split; [left; now symmetry | exact Hy].
    + destruct (IH H) as [H1 | [[Hx Hy] | H2]].
      * left. right. exact H1.
      * right. left. split; [right; exact Hx | exact Hy].
      * right. right. exact H2.
Qed.

Lemma Before_app_l (l1 l2 : list A) (x y : A) :
  Before l1 x y -> Before (l1 ++ l2) x y.
Proof.
  intros [a [b [c H]]]. exists a, b, (c ++ l2).
  rewrite H. rewrite <- !app_assoc. simpl. now rewrite <- app_assoc.
Qed.

Lemma Before_distinct (l : list A) (x y : A) :
  NoDup l -> Before l x y -> x <> y.
Proof.
  induction l as [| z l IH]; [intros _ H; destruct (Before_nil _ _ H) |].
  intros Hnd. inversion Hnd as [| z' l' Hz Hl]; subst.
  rewrite Before_cons_iff. intros [[Hx Hy] | H].
  - intros ->. subst. contradiction.
  - now apply IH.
Qed.

Lemma Before_asym (l : list A) (x y : A) :
  NoDup l -> Before l x y -> Before l y x -> False.
Proof.
  induction l as [| z l IH]; [intros _ H; destruct (Before_nil _ _ H) |].
  intros Hnd. inversion Hnd as [| z' l' Hz Hl]; subst.
  rewrite !Before_cons_iff. intros [[Hx Hy] | H1] [[Hy' Hx'] | H2].
  - subst. contradiction.
  - subst. now destruct (Before_In _ _ _ H2).
  - subst. now destruct (Before_In _ _ _ H1).
  - now apply IH.
Qed.

Lemma Before_total (l : list A) (x y : A) :
  In x l -> In y l -> x <> y -> Before l x y \/ Before l y x.
Proof.
  induction l as [| z l IH]; [intros [] |].
  intros Hx Hy Hne. rewrite !Before_cons_iff.
  destruct Hx as [Hx | Hx], Hy as [Hy | Hy].
  - exfalso. apply Hne. now rewrite <- Hx, <- Hy.
  - left. left. split; [now symmetry | exact Hy].
  - right. left. split; [now symmetry | exact Hx].
  - destruct (IH Hx Hy Hne); [left | right]; right; assumption.
Qed.

Lemma Before_filter (f : A -> bool) (l : list A) (x y : A) :
  Before (filter f l) x y -> Before l x y.
Proof.
  induction l as [| z l IH]; simpl; [trivial |].
  rewrite Before_cons_iff. destruct (f z).
  - rewrite Before_cons_iff. intros [[Hx Hy] | H].
    + left. split; [exact Hx |]. now apply filter_In in Hy.
    + right. now apply IH.
  - intros H. right. now apply IH.
Qed.

Lemma Before_firstn (n : nat) (l : list A) (x y : A) :
  Before (firstn n l) x y -> Before l x y.
Proof.
  intros H. rewrite <- (firstn_skipn n l). now apply Before_app_l.
Qed.

Lemma Before_map {B : Type} (f : A -> B) (l : list A) (x y : A) :
  Before l x y -> Before (map f l) (f x) (f y).
Proof.
  intros [a [b [c H]]]. exists (map f a), (map f b), (map f c).
  rewrite H. rewrite !map_app. simpl. now rewrite map_app.
Qed.

End BeforeFacts.

(** * The stable insertion sort *)

Section SortFacts.

Context {A : Type}.
Variable after : A -> A -> bool.

Lemma insert_perm (x : A) (l : list A) : Permutation (x :: l) (Js.insert after x l).
Proof.
  induction l as [| y l IH]; simpl; [reflexivity |].
  destruct (after x y); [| reflexivity].
  rewrite perm_swap. now apply perm_skip.
Qed.

Lemma sort_perm (l : list A) : Permutation l (Js.sort after l).
Proof.
  induction l as [| x l IH]; simpl; [reflexivity |].
  rewrite <- insert_perm. now apply perm_skip.
Qed.

Lemma insert_keeps (z : A) (l : list A) (x y : A) :
  Before l x y -> Before (Js.insert after z l) x y.
Proof.
  induction l as [| w l IH]; simpl; [intros H; destruct (Before_nil _ _ H) |].
  destruct (after z w).
  - rewrite !Before_cons_iff. intros [[Hx Hy] | H].
    + left. split; [exact Hx |].
      apply (Permutation_in _ (insert_perm z l)). right. exact Hy.
    + right. now apply IH.
  - intros H. apply Before_cons_iff. right. exact H.
Qed.

(** An element is inserted before every element it need not come after. *)
Lemma insert_first (x : A) (l : list A) (y : A) :
  In y l -> after x y = false -> Before (Js.insert after x l) x y.
Proof.
  induction l as [| w l IH]; simpl; [intros [] |].
  intros Hy Hxy. destruct (after x w) eqn:Hxw.
  - apply Before_cons_iff. right. destruct Hy as [Hy | Hy].
    + subst. rewrite Hxw in Hxy. discriminate Hxy.
    + now apply IH.
  - apply Before_cons_iff. left. split; [reflexivity | exact Hy].
Qed.

(** The sort keeps [x] before [y] unless the comparison sends [x] after [y]. *)
Lemma sort_keeps (l : list A) (x y : A) :
  Before l x y -> after x y = false -> Before (Js.sort after l) x y.
Proof.
  induction l as [| z l IH]; simpl; [intros H; destruct (Before_nil _ _ H) |].
  rewrite Before_cons_iff. intros [[Hx Hy] | H] Hxy.
  - subst z. apply insert_first; [| exact Hxy].
    apply (Permutation_in _ (sort_perm l)). exact Hy.
  - apply insert_keeps. now apply IH.
Qed.

(** Stability: two elements that compare equal stay in their order. *)
Lemma sort_stable (l : list A) (x y : A) :
  NoDup l -> Before (Js.sort after l) x y -> after y x = false -> Before l x y.
Proof.
  intros Hnd Hxy Hyx.
  assert (Hnd' : NoDup (Js.sort after l))
    by (apply (Permutation_NoDup (sort_perm l)); exact Hnd).
  destruct (Before_In _ _ _ Hxy) as [Hx Hy].
  apply (Permutation_in _ (Permutation_sym (sort_perm l))) in Hx, Hy.
  destruct (Before_total l x y Hx Hy (Before_distinct _ _ _ Hnd' Hxy)) as [H | H];
    [exact H |].
  exfalso. apply (Before_asym _ _ _ Hnd' Hxy). now apply sort_keeps.
Qed.

(** The result is ordered by any transitive relation [R] that the
    comparison decides on the elements satisfying [P]. *)
Variable P : A -> Prop.
Variable R : A -> A -> Prop.
Hypothesis R_trans : forall a b c, R a b -> R b c -> R a c.
Hypothesis after_false : forall a b, P a -> P b -> after a b = false -> R a b.
Hypothesis after_true : forall a b, P a -> P b -> after a b = true -> R b a.

Lemma insert_ordered (x : A) (l : list A) :
  P x -> Forall P l -> (forall a b, Before l a b -> R a b) ->
  forall a b, Before (Js.insert after x l) a b -> R a b.
Proof.
  induction l as [| w l IH]; simpl; intros Px Pl Hl a b.
  - rewrite Before_cons_iff. intros [[_ []] | H]. destruct (Before_nil _ _ H).
  - inversion Pl as [| w' l' Pw Pl']; subst.
    assert (Hl' : forall a b, Before l a b -> R a b).
    { intros a' b' H. apply Hl. apply Before_cons_iff. right. exact H. }
    destruct (after x w) eqn:Hxw.
    + rewrite Before_cons_iff. intros [[Ha Hb] | H].
      * subst a. apply (Permutation_in _ (Permutation_sym (insert_perm x l))) in Hb.
        destruct Hb as [Hb | Hb].
        -- subst b. now apply after_true.
        -- apply Hl. apply Before_cons_iff. left. split; [reflexivity | exact Hb].
      * now apply (IH Px Pl' Hl').
    + rewrite Before_cons_iff. intros [[Ha Hb] | H]; [| now apply Hl].
      subst a. assert (Hxw' : R x w) by now apply after_false.
      destruct Hb as [Hb | Hb]; [now subst b |].
      apply (R_trans _ w); [exact Hxw' |].
      apply Hl. apply Before_cons_iff. left. split; [reflexivity | exact Hb].
Qed.

Lemma sort_ordered (l : list A) :
  Forall P l -> forall a b, Before (Js.sort after l) a b -> R a b.
Proof.
  induction l as [| x l IH]; simpl; intros Pl a b.
  - intros H. destruct (Before_nil _ _ H).
  - inversion Pl as [| x' l' Px Pl']; subst.
    apply insert_ordered; [exact Px | | now apply IH].
    apply Forall_forall. intros e He.
    apply (Permutation_in _ (Permutation_sym (sort_perm l))) in He.
    revert e He. now apply Forall_forall.
Qed.

End SortFacts.

(** * The words of a text *)

Lemma lowerUnit_idempotent (c : ascii) :
  Js.lowerUnit (Js.lowerUnit c) = Js.lowerUnit c.
Proof.
  destruct c as [[] [] [] [] [] [] [] []]; reflexivity.
Qed.

Lemma toLowerCase_units (s : string) :
  allUnits (fun c => Ascii.eqb (Js.lowerUnit c) c) (Js.toLowerCase s) = true.
Proof.
  induction s as [| c r IH]; simpl; [reflexivity |].
  rewrite lowerUnit_idempotent, Ascii.eqb_refl. exact IH.
Qed.

Lemma lower_units_fixed (w : string) :
  allUnits (fun c => Ascii.eqb (Js.lowerUnit c) c) w = true -> Js.toLowerCase w = w.
Proof.
  induction w as [| c r IH]; simpl; [reflexivity |].
  intros H. apply andb_true_iff in H. destruct H as [Hc Hr].
  apply Ascii.eqb_eq in Hc. now rewrite Hc, IH.
Qed.

Lemma wordRuns_cons (c : ascii) (r : string) :
  Js.wordRuns (String c r)
  = if Js.isWordChar c then
      match r with
      | EmptyString => [String c EmptyString]
      | String c' _ =>
          if Js.isWordChar c' then
            match Js.wordRuns r with
            | [] => [String c EmptyString]
            | w :: ws => String c w :: ws
            end
          else String c EmptyString :: Js.wordRuns r
      end
    else Js.wordRuns r.
Proof.
  destruct r; reflexivity.
Qed.

(** The matches are substrings: what holds of every code unit of the text
    holds of every code unit of every match. *)
Lemma wordRuns_units (p : ascii -> bool) (s : string) :
  allUnits p s = true -> Forall (fun w => allUnits p w = true) (Js.wordRuns s).
Proof.
  induction s as [| c r IH]; [constructor |].
  intros H. cbn [allUnits] in H. apply andb_true_iff in H. destruct H as [Hc Hr].
  specialize (IH Hr). rewrite wordRuns_cons.
  destruct (Js.isWordChar c); [| exact IH].
  destruct r as [| c' r']; [constructor; [simpl; now rewrite Hc | constructor] |].
  destruct (Js.isWordChar c').
  - destruct (Js.wordRuns (String c' r')) as [| w ws].
    + constructor; [simpl; now rewrite Hc | constructor].
    + inversion IH as [| w' ws' Hw Hws]; subst.
      constructor; [simpl; now rewrite Hc, Hw | exact Hws].
  - constructor; [simpl; now rewrite Hc | exact IH].
Qed.

(** A match is a non-empty run of word characters. *)
Lemma wordRuns_words (s : string) :
  Forall (fun w => w <> EmptyString /\ allUnits Js.isWordChar w = true)
         (Js.wordRuns s).
Proof.
  induction s as [| c r IH]; [constructor |].
  rewrite wordRuns_cons.
  destruct (Js.isWordChar c) eqn:Hc; [| exact IH].
  assert (Hone : String c EmptyString <> EmptyString
                 /\ allUnits Js.isWordChar (String c EmptyString) = true)
    by (split; [discriminate | simpl; now rewrite Hc]).
  destruct r as [| c' r']; [constructor; [exact Hone | constructor] |].
  destruct (Js.isWordChar c').
  - destruct (Js.wordRuns (String c' r')) as [| w ws].
    + constructor; [exact Hone | constructor].
    + inversion IH as [| w' ws' [_ Hw] Hws]; subst.
      constructor; [| exact Hws].
      split; [discriminate | simpl; now rewrite Hc, Hw].
  - constructor; [exact Hone | exact IH].
Qed.

Lemma lexicalWords_runs (text : string) :
  lexicalWords text = Js.wordRuns (Js.toLowerCase text).
Proof.
  unfold lexicalWords, Js.matchWords.
  destruct (Js.wordRuns (Js.toLowerCase text)); reflexivity.
Qed.

Lemma lexicalWords_shape (text : string) (w : string) :
  In w (lexicalWords text) ->
  w <> EmptyString /\ allUnits Js.isWordChar w = true /\ Js.toLowerCase w = w.
Proof.
  rewrite lexicalWords_runs. intros Hin.
  pose proof (wordRuns_words (Js.toLowerCase text)) as Hw.
  pose proof (wordRuns_units _ _ (toLowerCase_units text)) as Hl.
  rewrite Forall_forall in Hw, Hl.
  destruct (Hw w Hin) as [Hne Hchars].
  split; [exact Hne |]. split; [exact Hchars |].
  apply lower_units_fixed. now apply Hl.
Qed.

(** Of the keys of [Object.prototype] only [constructor] is in lower case. *)
Lemma lowercase_builtin (w : string) :
  Js.toLowerCase w = w ->
  Obj.assoc w Obj.builtins = None \/ w = "constructor".
Proof.
  intros Hlow. unfold Obj.builtins. cbn [Obj.assoc].
  destruct (String.eqb_spec w "constructor") as [E | _]; [now right |].
  repeat match goal with
         | |- context [String.eqb w ?k] =>
             destruct (String.eqb_spec w k) as [E | _];
             [subst w; discriminate Hlow |]
         end.
  now left.
Qed.

(** * The [frequency] object after the loop *)

Lemma fold_left_invariant {A B : Type} (I : A -> Prop) (f : A -> B -> A)
      (l : list B) (a : A) :
  I a -> (forall acc x, In x l -> I acc -> I (f acc x)) -> I (fold_left f l a).
Proof.
  revert a. induction l as [| x l IH]; intros a Ha Hstep; simpl; [exact Ha |].
  apply IH.
  - apply Hstep; [left; reflexivity | exact Ha].
  - intros acc y Hy. apply Hstep. right. exact Hy.
Qed.

Lemma assoc_None {B : Type} (key : string) (l : list (string * B)) :
  Obj.assoc key l = None <-> ~ In key (map fst l).
Proof.
  induction l as [| [k v] l IH]; simpl; [tauto |].
  destruct (String.eqb_spec key k) as [E | E].
  - split; [discriminate | intros H; exfalso; apply H; left; now symmetry].
  - rewrite IH. split; [intros H [Hk | Hk]; [now apply E | now apply H]
                        | intros H Hk; apply H; right; exact Hk].
Qed.

Lemma assoc_Some {B : Type} (key : string) (l : list (string * B)) (v : B) :
  Obj.assoc key l = Some v -> In (key, v) l.
Proof.
  induction l as [| [k w] l IH]; simpl; [discriminate |].
  destruct (String.eqb_spec key k) as [E | E].
  - intros [= <-]. left. now rewrite E.
  - intros H. right. now apply IH.
Qed.

Lemma replace_keys (key : string) (v : Value) (obj : Obj.t) :
  map fst (Obj.replace key v obj) = map fst obj.
Proof.
  induction obj as [| [k w] obj IH]; simpl; [reflexivity |].
  destruct (String.eqb key k); simpl; [reflexivity | now rewrite IH].
Qed.

Lemma replace_In (key : string) (v : Value) (obj : Obj.t) (e : string * Value) :
  In e (Obj.replace key v obj) -> e = (key, v) \/ In e obj.
Proof.
  induction obj as [| [k w] obj IH]; simpl; [tauto |].
  destruct (String.eqb_spec key k) as [E | E]; simpl.
  - intros [H | H]; [left; now rewrite E | right; right; exact H].
  - intros [H | H]; [right; left; exact H |].
    destruct (IH H); [now left | right; right; assumption].
Qed.

(** One round of the loop keeps the keys, or creates the word as the last
    key. *)
Lemma countWord_keys (stop : list string) (obj : Obj.t) (w : string) :
  (map fst (countWord stop obj w) = map fst obj
   /\ (Js.has stop w = true \/ In w (map fst obj) \/ w = "__proto__"))
  \/ (map fst (countWord stop obj w) = map fst obj ++ [w]
      /\ ~ In w (map fst obj) /\ Js.has stop w = false /\ w <> "__proto__").
Proof.
  unfold countWord. destruct (Js.has stop w) eqn:Hstop; simpl.
  - left. split; [reflexivity | now left].
  - unfold Obj.set, Obj.get.
    destruct (Obj.assoc w obj) as [v |] eqn:Hown.
    + left. split; [apply replace_keys |]. right. left.
      apply assoc_Some in Hown. now apply (in_map fst) in Hown.
    + destruct (String.eqb_spec w "__proto__") as [E | E].
      * left. split; [reflexivity | now right; right].
      * right. rewrite map_app. simpl.
        split; [reflexivity |]. split; [now apply assoc_None |].
        split; [reflexivity | exact E].
Qed.

Lemma Before_snoc_inv {A : Type} (l : list A) (z x y : A) :
  Before (l ++ [z]) x y -> Before l x y \/ (In x l /\ y = z).
Proof.
  intros H. apply Before_app_inv in H. destruct H as [H | [[Hx Hy] | H]].
  - now left.
  - right. split; [exact Hx |]. destruct Hy as [Hy | []]. now symmetry.
  - apply Before_cons_iff in H. destruct H as [[_ []] | H].
    destruct (Before_nil _ _ H).
Qed.

Lemma FirstSeenBefore_snoc (ws : list string) (w k1 k2 : string) :
  FirstSeenBefore ws k1 k2 -> FirstSeenBefore (ws ++ [w]) k1 k2.
Proof.
  intros [Hne [pre [post [Hws Hpre]]]]. split; [exact Hne |].
  exists pre, (post ++ [w]). split; [| exact Hpre].
  rewrite Hws, <- app_assoc. reflexivity.
Qed.

(** The keys of [frequency] after the loop over [ws]: the words that are no
    stop words (and not [__proto__]), each once, in first-seen order. *)
Lemma frequency_keys (stop : list string) (ws : list string) :
  let keys := map fst (fold_left (countWord stop) ws []) in
  NoDup keys
  /\ (forall k, In k keys -> In k ws /\ Js.has stop k = false)
  /\ (forall k, In k ws -> Js.has stop k = false -> k <> "__proto__" -> In k keys)
  /\ (forall k1 k2, Before keys k1 k2 -> FirstSeenBefore ws k1 k2).
Proof.
  induction ws as [| w ws IH] using rev_ind; simpl.
  - split; [constructor |]. split; [intros k [] |]. split; [intros k [] |].
    intros k1 k2 H. destruct (Before_nil _ _ H).
  - rewrite fold_left_app. cbn [fold_left].
    set (obj := fold_left (countWord stop) ws []) in *.
    simpl in IH. destruct IH as [Hnd [Hsub [Hsup Hord]]].
    destruct (countWord_keys stop obj w) as [[Hk Hwhy] | [Hk [Hnew [Hstop Hproto]]]];
      rewrite Hk.
    + split; [exact Hnd |]. split; [| split].
      * intros k Hin. destruct (Hsub k Hin) as [H1 H2].
        split; [apply in_or_app; now left | exact H2].
      * intros k Hin Hs Hp. apply in_app_or in Hin. destruct Hin as [Hin | [Hin | []]].
        -- now apply Hsup.
        -- subst k. destruct Hwhy as [Hw | [Hw | Hw]].
           ++ rewrite Hw in Hs. discriminate Hs.
           ++ exact Hw.
           ++ contradiction.
      * intros k1 k2 H. apply FirstSeenBefore_snoc. now apply Hord.
    + assert (Hw : ~ In w ws).
      { intros Hin. apply Hnew. now apply Hsup. }
      split; [| split; [| split]].
      * apply NoDup_rev in Hnd. rewrite <- (rev_involutive (map fst obj ++ [w])).
        apply NoDup_rev. rewrite rev_app_distr. simpl.
        constructor; [| exact Hnd]. now rewrite <- in_rev.
      * intros k Hin. apply in_app_or in Hin. destruct Hin as [Hin | [Hin | []]].
        -- destruct (Hsub k Hin) as [H1 H2].
           split; [apply in_or_app; now left | exact H2].
        -- subst k. split; [apply in_or_app; right; now left | exact Hstop].
      * intros k Hin Hs Hp. apply in_or_app.
        apply in_app_or in Hin. destruct Hin as [Hin | [Hin | []]].
        -- left. now apply Hsup.
        -- right. now left.
      * intros k1 k2 H. apply Before_snoc_inv in H.
        destruct H as [H | [Hin Heq]].
        -- apply FirstSeenBefore_snoc. now apply Hord.
        -- subst k2. split; [intros ->; contradiction |].
           destruct (Hsub k1 Hin) as [Hin1 _].
           destruct (in_split _ _ Hin1) as [pre [post Hws]].
           exists pre, (post ++ [w]). split.
           ++ rewrite Hws, <- app_assoc. reflexivity.
           ++ intros Hpre. apply Hw. rewrite Hws. apply in_or_app. now left.
Qed.

Lemma prefix_app (p s t : string) :
  String.prefix p s = true -> String.prefix p (s ++ t) = true.
Proof.
  revert s. induction p as [| a p IH]; intros s.
  - intros _. destruct (s ++ t)%string; reflexivity.
  - destruct s as [| b s]; simpl; [discriminate |].
    destruct (ascii_dec a b); [apply IH | discriminate].
Qed.


Lemma orZeroPlusOne_own (v : Value) :
  storable v -> storable (Obj.orZeroPlusOne (Obj.Prim v)).
Proof.
  destruct v as [n | s]; simpl.
  - destruct n; simpl; lia.
  - destruct s as [| c s]; [intros _; simpl; lia |].
    intros H. now apply (prefix_app _ (String c s) "1").
Qed.

Lemma set_storable (obj : Obj.t) (key : string) (v : Value) :
  Forall (fun e => storable (snd e)) obj -> storable v ->
  Forall (fun e => storable (snd e)) (Obj.set obj key v).
Proof.
  intros Hobj Hv. unfold Obj.set.
  destruct (Obj.assoc key obj).
  - apply Forall_forall. intros e He.
    destruct (replace_In _ _ _ _ He) as [Heq | Hin]; [rewrite Heq; exact Hv |].
    rewrite Forall_forall in Hobj. now apply Hobj.
  - destruct (String.eqb key "__proto__"); [exact Hobj |].
    apply Forall_app. split; [exact Hobj |]. constructor; [exact Hv | constructor].
Qed.

(** [stored_text_is_source]: whatever the text, a string stored in
    [frequency] starts with [function], the text of a built-in function. *)
Lemma stored_text_is_source (stop : list string) (ws : list string) :
  Forall (fun e => storable (snd e)) (fold_left (countWord stop) ws []).
Proof.
  apply fold_left_invariant; [constructor |].
  intros obj w _ Hobj. unfold countWord.
  destruct (Js.has stop w); simpl; [exact Hobj |].
  unfold Obj.get. destruct (Obj.assoc w obj) as [v |] eqn:Hown.
  - apply set_storable; [exact Hobj |]. apply orZeroPlusOne_own.
    apply assoc_Some in Hown.
    rewrite Forall_forall in Hobj. exact (Hobj _ Hown).
  - unfold Obj.set. rewrite Hown. unfold Obj.inherited.
    destruct (String.eqb w "__proto__"); [exact Hobj |].
    apply Forall_app. split; [exact Hobj |]. constructor; [| constructor].
    destruct (Obj.assoc w Obj.builtins) as [name |]; simpl; [| lia].
    match goal with |- String.prefix _ ?x = true => destruct x; reflexivity end.
Qed.

(** Without a word that is a key of [Object.prototype], every stored value
    is a number. *)
Lemma stored_numbers (stop : list string) (ws : list string) :
  (forall w, In w ws -> Obj.assoc w Obj.builtins = None) ->
  Forall (fun e => exists n, snd e = Num n) (fold_left (countWord stop) ws []).
Proof.
  intros Hplain. apply fold_left_invariant; [constructor |].
  intros obj w Hw Hobj. unfold countWord.
  destruct (Js.has stop w); simpl; [exact Hobj |].
  unfold Obj.get, Obj.set. destruct (Obj.assoc w obj) as [v |] eqn:Hown.
  - apply Forall_forall. intros e He.
    destruct (replace_In _ _ _ _ He) as [Heq | Hin].
    + rewrite Heq. apply assoc_Some in Hown. rewrite Forall_forall in Hobj.
      destruct (Hobj _ Hown) as [n Hn]. simpl in Hn. subst v.
      destruct n; simpl; eexists; reflexivity.
    + rewrite Forall_forall in Hobj. now apply Hobj.
  - unfold Obj.inherited. rewrite (Hplain w Hw).
    destruct (String.eqb w "__proto__"); [exact Hobj |].
    apply Forall_app. split; [exact Hobj |].
    constructor; [| constructor]. simpl. eexists; reflexivity.
Qed.

(** * [Object.entries] *)

Lemma filter_split_perm {A : Type} (f : A -> bool) (l : list A) :
  Permutation (filter f l ++ filter (fun x => negb (f x)) l) l.
Proof.
  induction l as [| x l IH]; simpl; [reflexivity |].
  destruct (f x); simpl.
  - now apply perm_skip.
  - rewrite <- Permutation_middle. now apply perm_skip.
Qed.

Lemma entries_perm (obj : Obj.t) : Permutation (Obj.entries obj) obj.
Proof.
  unfold Obj.entries.
  rewrite <- (filter_split_perm Obj.isIndex obj) at 3.
  apply Permutation_app_tail. apply Permutation_sym, sort_perm.
Qed.

Lemma arrayIndex_injective (k1 k2 : string) (n : N) :
  Obj.arrayIndex k1 = Some n -> Obj.arrayIndex k2 = Some n -> k1 = k2.
Proof.
  unfold Obj.arrayIndex. intros H1 H2.
  destruct (NilEmpty.uint_of_string k1) as [d1 |]; [| discriminate H1].
  destruct (NilEmpty.uint_of_string k2) as [d2 |]; [| discriminate H2].
  destruct (String.eqb_spec (NilZero.string_of_uint (N.to_uint (N.of_uint d1))) k1)
    as [E1 | _]; [| discriminate H1].
  destruct (String.eqb_spec (NilZero.string_of_uint (N.to_uint (N.of_uint d2))) k2)
    as [E2 | _]; [| discriminate H2].
  simpl in H1, H2.
  destruct (N.of_uint d1 <? 4294967295)%N; [| discriminate H1].
  destruct (N.of_uint d2 <? 4294967295)%N; [| discriminate H2].
  injection H1 as H1. injection H2 as H2.
  rewrite <- E1, <- E2. now rewrite H1, H2.
Qed.

Lemma NoDup_keys_entries (l : list (string * Value)) :
  NoDup (map fst l) -> NoDup l.
Proof.
  induction l as [| e l IH]; simpl; intros H; [constructor |].
  inversion H as [| k ks Hk Hks]; subst.
  constructor; [| now apply IH].
  intros Hin. apply Hk. now apply in_map.
Qed.

Lemma same_key_same_entry (l : list (string * Value)) (x y : string * Value) :
  NoDup (map fst l) -> In x l -> In y l -> fst x = fst y -> x = y.
Proof.
  induction l as [| e l IH]; simpl; [intros _ [] |].
  intros H Hx Hy Hk. inversion H as [| k ks Hnk Hks]; subst.
  destruct Hx as [Hx | Hx], Hy as [Hy | Hy].
  - now rewrite <- Hx, <- Hy.
  - exfalso. apply Hnk. subst e. rewrite Hk. now apply in_map.
  - exfalso. apply Hnk. subst e. rewrite <- Hk. now apply in_map.
  - now apply IH.
Qed.

(** The order of [Object.entries]: array indices ascending, then the other
    keys in creation order. *)
Lemma entries_order (obj : Obj.t) (x y : string * Value) :
  NoDup (map fst obj) ->
  Before (Obj.entries obj) x y ->
  match Obj.arrayIndex (fst x), Obj.arrayIndex (fst y) with
  | Some i, Some j => (i < j)%N
  | Some _, None => True
  | None, Some _ => False
  | None, None => Before obj x y
  end.
Proof.
  intros Hnd Hxy.
  assert (Hne : x <> y).
  { apply (Before_distinct (Obj.entries obj)); [| exact Hxy].
    apply (Permutation_NoDup (Permutation_sym (entries_perm obj))).
    now apply NoDup_keys_entries. }
  unfold Obj.entries in Hxy. apply Before_app_inv in Hxy.
  set (after := fun a b : string * Value => (Obj.indexOf b <? Obj.indexOf a)%N) in *.
  assert (Hidx : forall e, In e (Js.sort after (filter Obj.isIndex obj)) ->
                           In e obj /\ Obj.isIndex e = true).
  { intros e He.
    apply (Permutation_in _ (Permutation_sym (sort_perm after _))) in He.
    now apply filter_In in He. }
  destruct Hxy as [H | [[Hx Hy] | H]].
  - destruct (Before_In _ _ _ H) as [Hx Hy].
    destruct (Hidx x Hx) as [Hxo Hxi], (Hidx y Hy) as [Hyo Hyi].
    assert (Hle : (Obj.indexOf x <= Obj.indexOf y)%N).
    { apply (sort_ordered after (fun _ => True)
               (fun a b => (Obj.indexOf a <= Obj.indexOf b)%N)) with
          (l := filter Obj.isIndex obj); try exact H.
      - intros a b c Hab Hbc. lia.
      - intros a b _ _ Hf. unfold after in Hf. apply N.ltb_ge in Hf. exact Hf.
      - intros a b _ _ Ht. unfold after in Ht. apply N.ltb_lt in Ht. lia.
      - apply Forall_forall. trivial. }
    unfold Obj.isIndex in Hxi, Hyi. unfold Obj.indexOf in Hle.
    destruct (Obj.arrayIndex (fst x)) as [i |] eqn:Ei; [| discriminate Hxi].
    destruct (Obj.arrayIndex (fst y)) as [j |] eqn:Ej; [| discriminate Hyi].
    destruct (N.eq_dec i j) as [E | E]; [| lia].
    exfalso. apply Hne. subst j.
    apply (same_key_same_entry obj); try assumption.
    now apply (arrayIndex_injective _ _ i).
  - destruct (Hidx x Hx) as [_ Hxi]. apply filter_In in Hy. destruct Hy as [_ Hyi].
    unfold Obj.isIndex in Hxi, Hyi.
    destruct (Obj.arrayIndex (fst x)); [| discriminate Hxi].
    destruct (Obj.arrayIndex (fst y)); [discriminate Hyi | exact I].
  - destruct (Before_In _ _ _ H) as [Hx Hy].
    apply filter_In in Hx, Hy. destruct Hx as [_ Hxi], Hy as [_ Hyi].
    unfold Obj.isIndex in Hxi, Hyi.
    destruct (Obj.arrayIndex (fst x)); [discriminate Hxi |].
    destruct (Obj.arrayIndex (fst y)); [discriminate Hyi |].
    now apply Before_filter in H.
Qed.

(** * Properties of the frequency list *)

Lemma frequency_entry_in_object (stop : list string) (text : string)
      (e : string * Value) :
  In e (frequencyWith stop text) ->
  In e (fold_left (countWord stop) (lexicalWords text) []).
Proof.
  unfold frequencyWith. intros He.
  assert (He' : In e (Js.sort goesAfter
                        (Obj.entries (fold_left (countWord stop) (lexicalWords text) [])))).
  { rewrite <- (firstn_skipn 20). apply in_or_app. left. exact He. }
  clear He. rename He' into He.
  apply (Permutation_in _ (Permutation_sym (sort_perm goesAfter _))) in He.
  now apply (Permutation_in _ (entries_perm _)) in He.
Qed.

Lemma countGe_trans (a b c : string * Value) :
  countGe a b -> countGe b c -> countGe a c.
Proof.
  unfold countGe.
  destruct (snd a), (snd b), (snd c); simpl; try tauto. lia.
Qed.

(** The frequency list of every text has at most 20 entries, each for a
    well-formed word; when the text does not hold the word [constructor],
    the counts are numbers that do not increase along the list. *)
Lemma frequency_list_shape (text : string) :
  List.length (calculateWordFrequency text) <= 20
  /\ Forall (fun e => WellFormedWord stopWords (fst e)) (calculateWordFrequency text)
  /\ (~ In "constructor" (lexicalWords text) ->
      SortedByCount (calculateWordFrequency text)).
Proof.
  unfold calculateWordFrequency. split; [| split].
  - unfold frequencyWith. apply firstn_le_length.
  - apply Forall_forall. intros e He.
    apply frequency_entry_in_object in He. apply (in_map fst) in He.
    destruct (frequency_keys stopWords (lexicalWords text)) as [_ [Hsub _]].
    destruct (Hsub _ He) as [Hword Hstop].
    destruct (lexicalWords_shape text _ Hword) as [Hne [Hchars Hlow]].
    repeat split; assumption.
  - intros Hctor a b Hab. unfold frequencyWith in Hab.
    apply Before_firstn in Hab. revert a b Hab.
    apply (sort_ordered goesAfter (fun e => exists n, snd e = Num n) countGe).
    + exact countGe_trans.
    + intros a b [m Hm] [n Hn]. unfold goesAfter, compareFn, countGe.
      rewrite Hm, Hn. intros H. apply Z.ltb_ge in H. lia.
    + intros a b [m Hm] [n Hn]. unfold goesAfter, compareFn, countGe.
      rewrite Hm, Hn. intros H. apply Z.ltb_lt in H. lia.
    + apply Forall_forall. intros e He.
      apply (Permutation_in _ (entries_perm _)) in He. revert e He.
      apply Forall_forall. apply stored_numbers. intros w Hw.
      destruct (lexicalWords_shape text w Hw) as [_ [_ Hlow]].
      destruct (lowercase_builtin w Hlow) as [Hnone | Hc]; [exact Hnone |].
      subst w. contradiction.
Qed.

(** ** C2 *)

(** C2, at the text ["constructor a a"]: the list [calculateWordFrequency]
    returns holds, for the word [constructor], a string in the place of the
    count, before the entry of count 2; its counts are not in
    non-increasing order. *)
Theorem constructor_breaks_count_order :
  calculateWordFrequency "constructor a a"
  = [("constructor", Text "function Object() { [native code] }1"); ("a", Num 2)]
  /\ ~ SortedByCount (calculateWordFrequency "constructor a a").
Proof.
  split; [reflexivity |].
  intros Hsorted.
  apply (Hsorted ("constructor", Text "function Object() { [native code] }1")
                 ("a", Num 2)).
  exists [], [], []. reflexivity.
Qed.

(** ** C7 *)

(** C7, as stated, fails at ["b 1"]: both words occur once, [b] is seen
    first, and the list has [1] first. *)
Lemma first_seen_tie_break_fails : ~ FirstSeenTieBreak "b 1".
Proof.
  intros Htie.
  assert (Hlist : Before (calculateWordFrequency "b 1") ("1", Num 1) ("b", Num 1))
    by (exists [], [], []; reflexivity).
  destruct (Htie _ _ _ Hlist) as [_ [pre [post [Hws Hpre]]]].
  apply Hpre.
  change (lexicalWords "b 1") with ["b"; "1"] in Hws.
  destruct pre as [| p pre]; [discriminate Hws |].
  injection Hws as Hp _. left. now symmetry.
Qed.

(** C7, amended: in the frequency list of a text that does not hold the word
    [constructor], of two entries with the same count the first has the
    smaller array index when both words are array indices, is the array
    index when only one is, and was first seen before the second when none
    is. *)
Theorem tie_break_key_order (text : string) (w1 w2 : string) (c : Value) :
  ~ In "constructor" (lexicalWords text) ->
  Before (calculateWordFrequency text) (w1, c) (w2, c) ->
  KeyOrder (lexicalWords text) w1 w2.
Proof.
  intros _ Hlist. unfold calculateWordFrequency, frequencyWith in Hlist.
  set (obj := fold_left (countWord stopWords) (lexicalWords text) []) in *.
  destruct (frequency_keys stopWords (lexicalWords text)) as [Hnd [_ [_ Hord]]].
  fold obj in Hnd, Hord.
  apply Before_firstn in Hlist.
  apply sort_stable in Hlist.
  - pose proof (entries_order obj _ _ Hnd Hlist) as H.
    unfold KeyOrder. cbn [fst] in H.
    destruct (Obj.arrayIndex w1), (Obj.arrayIndex w2); try exact H.
    apply Hord. exact (Before_map fst _ _ _ H).
  - apply (Permutation_NoDup (Permutation_sym (entries_perm obj))).
    now apply NoDup_keys_entries.
  - unfold goesAfter, compareFn. cbn [snd].
    destruct c as [n | s]; [| reflexivity].
    rewrite Z.sub_diag. reflexivity.
Qed.

Lemma tie_break_key_order_witness :
  ~ In "constructor" (lexicalWords "b 10 9 a")
  /\ Before (calculateWordFrequency "b 10 9 a") ("9", Num 1) ("10", Num 1)
  /\ KeyOrder (lexicalWords "b 10 9 a") "9" "10".
Proof.
  assert (H1 : ~ In "constructor" (lexicalWords "b 10 9 a")).
  { vm_compute. intros [H | [H | [H | [H | []]]]]; discriminate H. }
  assert (H2 : Before (calculateWordFrequency "b 10 9 a") ("9", Num 1) ("10", Num 1)).
  { exists [], [], [("b", Num 1); ("a", Num 1)]. reflexivity. }
  split; [exact H1 |]. split; [exact H2 |].
  exact (tie_break_key_order "b 10 9 a" "9" "10" (Num 1) H1 H2).
Defined.

(** * Further properties of the statistics *)

Lemma stats_counts_ordered_aux (text : string) :
  wordCount (calculateStats text) <= charCountWithoutSpaces (calculateStats text)
  /\ charCountWithoutSpaces (calculateStats text) <= charCount (calculateStats text).
Proof.
  unfold calculateStats; cbn [wordCount charCountWithoutSpaces charCount].
  split.
  - rewrite <- (splitRuns_totalLength Js.isWhiteSpace false text).
    apply nonempty_count_le_totalLength.
  - apply remove_length.
Qed.

Lemma remove_nothing_left (cls : ascii -> bool) (s : string) :
  String.length (Js.remove cls s) = 0 <-> allUnits cls s = true.
Proof.
  induction s as [| c r IH]; simpl; [tauto |].
  destruct (cls c); simpl; [exact IH |].
  split; discriminate.
Qed.

(** [calculateStats] counts no word exactly when every code unit of the
    text is whitespace. *)
Theorem wordCount_zero_iff_blank (text : string) :
  wordCount (calculateStats text) = 0 <-> allUnits Js.isWhiteSpace text = true.
Proof.
  rewrite <- remove_nothing_left.
  unfold calculateStats; cbn [wordCount].
  rewrite <- (splitRuns_totalLength Js.isWhiteSpace false text).
  fold (Js.split Js.isWhiteSpace text).
  rewrite <- (nonempty_totalLength (Js.split Js.isWhiteSpace text)).
  set (words := filter _ _).
  assert (Hpos : Forall (fun w => 0 < String.length w) words).
  { apply Forall_forall. intros w Hw. apply filter_In in Hw.
    destruct Hw as [_ Hw]. now apply Nat.ltb_lt in Hw. }
  clearbody words. destruct words as [| w ws].
  - split; reflexivity.
  - inversion Hpos as [| w' ws' Hw Hws]; subst.
    unfold totalLength; simpl. split; [discriminate | lia].
Qed.

(** When there is a word, [avgWordLength] is exactly the number of
    non-whitespace code units divided by the number of words, and it is at
    least 1. *)
Theorem avgWordLength_is_quotient (text : string) :
  0 < wordCount (calculateStats text) ->
  avgWordLength (calculateStats text)
  = Js.Fin (Z.of_nat (charCountWithoutSpaces (calculateStats text))
            # Pos.of_nat (wordCount (calculateStats text)))
  /\ (1 <= Z.of_nat (charCountWithoutSpaces (calculateStats text))
          # Pos.of_nat (wordCount (calculateStats text)))%Q.
Proof.
  intros Hpos.
  destruct (avgWordLength_cases text) as [[Hnil _] | [_ Havg]].
  - exfalso. unfold calculateStats in Hpos; cbn [wordCount] in Hpos.
    rewrite Hnil in Hpos. simpl in Hpos. lia.
  - rewrite nonempty_totalLength in Havg. unfold Js.split in Havg.
    rewrite splitRuns_totalLength in Havg.
    split; [exact Havg |].
    destruct (stats_counts_ordered_aux text) as [Hle _].
    unfold Qle; cbn [Qnum Qden].
    rewrite Z.mul_1_l, Z.mul_1_r.
    rewrite <- positive_nat_Z, Nat2Pos.id by lia.
    apply Nat2Z.inj_le. exact Hle.
Qed.

Lemma trimStart_blank (s : string) :
  allUnits Js.isWhiteSpace s = true -> Js.trimStart s = EmptyString.
Proof.
  induction s as [| c r IH]; simpl; [reflexivity |].
  destruct (Js.isWhiteSpace c); simpl; [exact IH | discriminate].
Qed.

Lemma trimStart_head (s : string) :
  allUnits Js.isWhiteSpace s = false ->
  exists c r, Js.trimStart s = String c r /\ Js.isWhiteSpace c = false.
Proof.
  induction s as [| c r IH]; simpl; [discriminate |].
  destruct (Js.isWhiteSpace c) eqn:Hc; simpl; [exact IH |].
  intros _. exists c, r. split; [reflexivity | exact Hc].
Qed.

(** [s.trim()] is falsy exactly when [s] is all whitespace. *)
Lemma trim_truthy (s : string) :
  Js.truthy (Js.trim s) = negb (allUnits Js.isWhiteSpace s).
Proof.
  unfold Js.trim. destruct (allUnits Js.isWhiteSpace s) eqn:Hs.
  - now rewrite (trimStart_blank s Hs).
  - destruct (trimStart_head s Hs) as [c [r [Ht Hc]]]. rewrite Ht.
    cbn [Js.trimEnd]. rewrite Hc. destruct (Js.trimEnd r); reflexivity.
Qed.

(** Some piece of a split has a code unit outside [cls] exactly when the
    text has a code unit outside both [cls] and the separators. *)
Lemma splitRuns_some_piece (sep cls : ascii -> bool) (inRun : bool) (s : string) :
  existsb (fun piece => negb (allUnits cls piece)) (Js.splitRuns sep inRun s)
  = negb (allUnits (fun c => cls c || sep c) s).
Proof.
  revert inRun. induction s as [| c r IH]; intros inRun; [reflexivity |].
  cbn [Js.splitRuns allUnits]. destruct (sep c).
  - rewrite orb_true_r. cbn [andb].
    destruct inRun; [apply IH |]. cbn [existsb allUnits negb orb]. apply IH.
  - rewrite orb_false_r. specialize (IH false).
    destruct (Js.splitRuns sep false r) as [| piece pieces].
    + cbn [existsb] in IH. cbn [existsb allUnits].
      rewrite <- (negb_involutive (allUnits _ r)), <- IH.
      now destruct (cls c).
    + cbn [existsb allUnits] in *. rewrite !negb_andb, <- IH.
      now rewrite orb_assoc.
Qed.

Lemma existsb_pointwise {A : Type} (f g : A -> bool) (l : list A) :
  (forall x, f x = g x) -> existsb f l = existsb g l.
Proof.
  intros H. induction l as [| x l IH]; simpl; [reflexivity |].
  now rewrite H, IH.
Qed.

Lemma filter_none {A : Type} (f : A -> bool) (l : list A) :
  List.length (filter f l) = 0 <-> existsb f l = false.
Proof.
  induction l as [| x l IH]; simpl; [tauto |].
  destruct (f x); simpl; [split; discriminate | exact IH].
Qed.

(** [calculateStats] counts no sentence exactly when every code unit of the
    text is whitespace or one of [.], [!], [?]. *)
Theorem sentenceCount_zero_iff (text : string) :
  sentenceCount (calculateStats text) = 0
  <-> allUnits (fun c => Js.isWhiteSpace c || Js.isTerminator c) text = true.
Proof.
  unfold calculateStats; cbn [sentenceCount].
  rewrite filter_none.
  rewrite (existsb_pointwise (fun s => Js.truthy (Js.trim s))
                             (fun s => negb (allUnits Js.isWhiteSpace s)))
    by (intros; apply trim_truthy).
  unfold Js.split. rewrite splitRuns_some_piece.
  now rewrite negb_false_iff.
Qed.

(** ** Words of a text in two parts *)

Section WordsOfParts.

Variable sep : ascii -> bool.

Lemma splitRuns_flag (s : string) :
  nonEmpty (Js.splitRuns sep true s) = nonEmpty (Js.splitRuns sep false s).
Proof.
  destruct s as [| c r]; [reflexivity |].
  cbn [Js.splitRuns]. destruct (sep c); reflexivity.
Qed.

(** A separator between two texts: the pieces of the first keep their
    head, and the non-empty pieces of the second are added. *)
Lemma splitRuns_joined (a b : string) (c : ascii) :
  sep c = true ->
  exists piece rest rest',
    Js.splitRuns sep false (a ++ String c b) = piece :: rest
    /\ Js.splitRuns sep false a = piece :: rest'
    /\ nonEmpty rest = nonEmpty rest' + nonEmpty (Js.splitRuns sep false b).
Proof.
  intros Hc. induction a as [| x a IH].
  - exists EmptyString, (Js.splitRuns sep true b), [].
    cbn [append Js.splitRuns]. rewrite Hc.
    split; [reflexivity |]. split; [reflexivity |]. apply splitRuns_flag.
  - destruct IH as [piece [rest [rest' [H1 [H2 H3]]]]].
    cbn [append Js.splitRuns]. destruct (sep x).
    + exists EmptyString, (Js.splitRuns sep true (a ++ String c b)),
             (Js.splitRuns sep true a).
      split; [reflexivity |]. split; [reflexivity |].
      rewrite !splitRuns_flag, H1, H2.
      unfold nonEmpty in *. cbn [filter].
      destruct (0 <? String.length piece); cbn [List.length]; lia.
    + rewrite H1, H2. exists (String x piece), rest, rest'.
      split; [reflexivity |]. split; [reflexivity | exact H3].
Qed.

Lemma nonEmpty_joined (a b : string) (c : ascii) :
  sep c = true ->
  nonEmpty (Js.splitRuns sep false (a ++ String c b))
  = nonEmpty (Js.splitRuns sep false a) + nonEmpty (Js.splitRuns sep false b).
Proof.
  intros Hc.
  destruct (splitRuns_joined a b c Hc) as [piece [rest [rest' [H1 [H2 H3]]]]].
  rewrite H1, H2. unfold nonEmpty in *. cbn [filter].
  destruct (0 <? String.length piece); cbn [List.length]; lia.
Qed.

End WordsOfParts.

(** The words of two texts joined by a whitespace code unit are the words
    of the one and the words of the other: the counts add up. *)
Theorem wordCount_joined (a b : string) (c : ascii) :
  Js.isWhiteSpace c = true ->
  wordCount (calculateStats (a ++ String c b))
  = wordCount (calculateStats a) + wordCount (calculateStats b).
Proof.
  intros Hc. unfold calculateStats; cbn [wordCount]. unfold Js.split.
  exact (nonEmpty_joined Js.isWhiteSpace a b c Hc).
Qed.

Lemma wordCount_joined_witness :
  Js.isWhiteSpace " " = true
  /\ wordCount (calculateStats ("to be " ++ String " " " or not"))
     = wordCount (calculateStats "to be ") + wordCount (calculateStats " or not").
Proof.
  split; [reflexivity |].
  apply (wordCount_joined "to be " " or not" " "). reflexivity.
Defined.

Lemma avgWordLength_is_quotient_witness :
  0 < wordCount (calculateStats "a bc  def")
  /\ avgWordLength (calculateStats "a bc  def")
     = Js.Fin (Z.of_nat (charCountWithoutSpaces (calculateStats "a bc  def"))
               # Pos.of_nat (wordCount (calculateStats "a bc  def"))).
Proof.
  assert (H : 0 < wordCount (calculateStats "a bc  def")) by (vm_compute; lia).
  split; [exact H |].
  exact (proj1 (avgWordLength_is_quotient "a bc  def" H)).
Defined.

(** * Further properties of the frequency list *)

Lemma toLowerCase_idempotent (s : string) :
  Js.toLowerCase (Js.toLowerCase s) = Js.toLowerCase s.
Proof.
  induction s as [| c r IH]; simpl; [reflexivity |].
  now rewrite lowerUnit_idempotent, IH.
Qed.

(** The frequency list does not depend on the case of the text: the text
    and its lower-case form have the same list. *)
Theorem frequency_ignores_case (text : string) :
  calculateWordFrequency (Js.toLowerCase text) = calculateWordFrequency text.
Proof.
  unfold calculateWordFrequency, frequencyWith, lexicalWords.
  now rewrite toLowerCase_idempotent.
Qed.

Lemma proto_never_stored (stop : list string) (ws : list string) :
  ~ In "__proto__" (map fst (fold_left (countWord stop) ws [])).
Proof.
  apply (fold_left_invariant (fun obj => ~ In "__proto__" (map fst obj)));
    [intros [] |].
  intros obj w _ Hobj.
  destruct (countWord_keys stop obj w) as [[Hk _] | [Hk [_ [_ Hproto]]]];
    rewrite Hk; [exact Hobj |].
  intros Hin. apply in_app_or in Hin. destruct Hin as [Hin | [Hin | []]].
  - now apply Hobj.
  - now apply Hproto.
Qed.

Lemma frequency_words_in_object (stop : list string) (text : string) (w : string) :
  In w (map fst (frequencyWith stop text)) ->
  In w (map fst (fold_left (countWord stop) (lexicalWords text) [])).
Proof.
  intros Hw. apply in_map_iff in Hw. destruct Hw as [e [He Hin]].
  apply in_map_iff. exists e. split; [exact He |].
  now apply frequency_entry_in_object.
Qed.

(** The word [__proto__] never gets an entry, however often the text has
    it. *)
Theorem proto_never_listed (text : string) :
  ~ In "__proto__" (map fst (calculateWordFrequency text)).
Proof.
  intros Hin. apply frequency_words_in_object in Hin.
  exact (proto_never_stored _ _ Hin).
Qed.

Lemma NoDup_firstn {A : Type} (n : nat) (l : list A) :
  NoDup l -> NoDup (firstn n l).
Proof.
  intros H. rewrite <- (firstn_skipn n l) in H.
  now apply NoDup_app_remove_r in H.
Qed.

Lemma sorted_entries_keys (stop : list string) (text : string) :
  Permutation
    (map fst (Js.sort goesAfter
                (Obj.entries (fold_left (countWord stop) (lexicalWords text) []))))
    (map fst (fold_left (countWord stop) (lexicalWords text) [])).
Proof.
  apply Permutation_map.
  rewrite <- (sort_perm goesAfter). apply entries_perm.
Qed.

(** No word has two entries in the frequency list. *)
Theorem frequency_words_distinct (text : string) :
  NoDup (map fst (calculateWordFrequency text)).
Proof.
  unfold calculateWordFrequency, frequencyWith.
  rewrite <- firstn_map. apply NoDup_firstn.
  apply (Permutation_NoDup (Permutation_sym (sorted_entries_keys stopWords text))).
  exact (proj1 (frequency_keys stopWords (lexicalWords text))).
Qed.

Lemma countedWords_spec (stop : list string) (ws : list string) (w : string) :
  In w (countedWords stop ws)
  <-> In w ws /\ Js.has stop w = false /\ w <> "__proto__".
Proof.
  unfold countedWords. rewrite nodup_In, filter_In, andb_true_iff.
  rewrite !negb_true_iff. rewrite String.eqb_neq. tauto.
Qed.

(** The keys of the object are the counted words. *)
Lemma frequency_keys_counted (stop : list string) (ws : list string) :
  Permutation (map fst (fold_left (countWord stop) ws [])) (countedWords stop ws).
Proof.
  destruct (frequency_keys stop ws) as [Hnd [Hsub [Hsup _]]].
  apply NoDup_Permutation; [exact Hnd | apply NoDup_nodup |].
  intros w. rewrite countedWords_spec. split.
  - intros Hin. destruct (Hsub w Hin) as [H1 H2].
    split; [exact H1 |]. split; [exact H2 |].
    intros ->. exact (proto_never_stored stop ws Hin).
  - intros [H1 [H2 H3]]. now apply Hsup.
Qed.

(** The frequency list has one entry for each counted word of the text, up
    to 20: its length is the smaller of 20 and the number of distinct
    words that are no stop words and not [__proto__]. *)
Theorem frequency_length (text : string) :
  List.length (calculateWordFrequency text)
  = Nat.min 20 (List.length (countedWords stopWords (lexicalWords text))).
Proof.
  unfold calculateWordFrequency, frequencyWith.
  rewrite length_firstn. f_equal.
  rewrite <- (Permutation_length (frequency_keys_counted stopWords (lexicalWords text))).
  rewrite <- (Permutation_length (sorted_entries_keys stopWords text)).
  now rewrite !length_map.
Qed.

Lemma assoc_replace (key k : string) (v : Value) (obj : Obj.t) :
  Obj.assoc k (Obj.replace key v obj)
  = if String.eqb k key
    then match Obj.assoc key obj with Some _ => Some v | None => None end
    else Obj.assoc k obj.
Proof.
  induction obj as [| [k' w] obj IH]; simpl.
  - now destruct (String.eqb k key).
  - destruct (String.eqb_spec key k') as [E | E]; simpl.
    + subst k'. destruct (String.eqb_spec k key) as [E' | E']; reflexivity.
    + rewrite IH. destruct (String.eqb_spec k k') as [E1 | E1].
      * destruct (String.eqb_spec k key) as [E2 | E2]; [| reflexivity].
        exfalso. apply E. now rewrite <- E2, E1.
      * reflexivity.
Qed.

Lemma assoc_snoc (key k : string) (v : Value) (obj : Obj.t) :
  Obj.assoc k (obj ++ [(key, v)])
  = match Obj.assoc k obj with
    | Some x => Some x
    | None => if String.eqb k key then Some v else None
    end.
Proof.
  induction obj as [| [k' w] obj IH]; simpl; [reflexivity |].
  destruct (String.eqb k k'); [reflexivity | exact IH].
Qed.

Lemma assoc_of_entry (l : list (string * Value)) (k : string) (v : Value) :
  NoDup (map fst l) -> In (k, v) l -> Obj.assoc k l = Some v.
Proof.
  induction l as [| [k' w] l IH]; simpl; [intros _ [] |].
  intros Hnd Hin. inversion Hnd as [| x xs Hk Hks]; subst.
  destruct Hin as [Hin | Hin].
  - injection Hin as -> ->. now rewrite String.eqb_refl.
  - destruct (String.eqb_spec k k') as [E | E]; [| now apply IH].
    exfalso. apply Hk. subst k'. now apply (in_map fst) in Hin.
Qed.

Lemma count_occ_snoc (ws : list string) (w k : string) :
  count_occ string_dec (ws ++ [w]) k
  = count_occ string_dec ws k + (if String.eqb w k then 1 else 0).
Proof.
  rewrite count_occ_app. f_equal. simpl.
  destruct (string_dec w k) as [E | E].
  - subst. now rewrite String.eqb_refl.
  - apply String.eqb_neq in E. now rewrite E.
Qed.

(** A number stored under a word is the number of times the loop has met
    the word. *)
Lemma stored_counts (stop : list string) (ws : list string) (k : string) (n : nat) :
  Obj.assoc k (fold_left (countWord stop) ws []) = Some (Num n) ->
  n = count_occ string_dec ws k.
Proof.
  revert k n. induction ws as [| w ws IH] using rev_ind; intros k n.
  - discriminate.
  - rewrite fold_left_app. cbn [fold_left].
    pose proof (stored_text_is_source stop ws) as Hstored.
    destruct (frequency_keys stop ws) as [_ [Hsub [Hsup _]]].
    set (obj := fold_left (countWord stop) ws []) in *.
    rewrite count_occ_snoc. unfold countWord.
    destruct (Js.has stop w) eqn:Hstop; cbn [negb].
    + intros Hk. rewrite (IH k n Hk).
      destruct (String.eqb_spec w k) as [E | E]; [| lia].
      exfalso. subst k.
      assert (Hin : In w (map fst obj)).
      { apply assoc_Some in Hk. now apply (in_map fst) in Hk. }
      destruct (Hsub w Hin) as [_ Hns]. rewrite Hns in Hstop. discriminate Hstop.
    + unfold Obj.get, Obj.set.
      destruct (Obj.assoc w obj) as [v |] eqn:Hown.
      * rewrite assoc_replace, Hown.
        destruct (String.eqb_spec k w) as [E | E].
        -- subst k. rewrite String.eqb_refl. intros Hv.
           destruct v as [m | s].
           ++ rewrite (IH w m Hown) in Hv.
              destruct (count_occ string_dec ws w); cbn in Hv;
                injection Hv as <-; lia.
           ++ exfalso. apply assoc_Some in Hown.
              rewrite Forall_forall in Hstored.
              specialize (Hstored _ Hown). cbn in Hstored.
              destruct s as [| c s]; [discriminate Hstored | discriminate Hv].
        -- intros Hk. rewrite (IH k n Hk).
           destruct (String.eqb_spec w k) as [E' | _]; [| lia].
           exfalso. apply E. now symmetry.
      * destruct (String.eqb_spec w "__proto__") as [Ep | Ep].
        -- intros Hk. rewrite (IH k n Hk).
           destruct (String.eqb_spec w k) as [E | _]; [| lia].
           exfalso. subst k. rewrite Hown in Hk. discriminate Hk.
        -- rewrite assoc_snoc.
           destruct (Obj.assoc k obj) as [x |] eqn:Hk.
           ++ intros [= ->]. rewrite (IH k n Hk).
              destruct (String.eqb_spec w k) as [E | _]; [| lia].
              exfalso. subst k. rewrite Hown in Hk. discriminate Hk.
           ++ destruct (String.eqb_spec k w) as [E | E]; [| discriminate].
              subst k. rewrite String.eqb_refl.
              assert (Hnone : count_occ string_dec ws w = 0).
              { apply count_occ_not_In. intros Hin.
                apply assoc_None in Hown. apply Hown. now apply Hsup. }
              rewrite Hnone. unfold Obj.inherited.
              destruct (Obj.assoc w Obj.builtins); [discriminate |].
              apply String.eqb_neq in Ep. rewrite Ep. cbn.
              intros [= <-]. reflexivity.
Qed.

(** A count in the frequency list is exact: the number listed with a word
    is the number of times the word occurs among the words of the text. *)
Theorem listed_count_exact (text : string) (w : string) (n : nat) :
  In (w, Num n) (calculateWordFrequency text) ->
  n = count_occ string_dec (lexicalWords text) w.
Proof.
  intros Hin. apply frequency_entry_in_object in Hin.
  apply (stored_counts stopWords).
  apply assoc_of_entry; [| exact Hin].
  exact (proj1 (frequency_keys stopWords (lexicalWords text))).
Qed.

Lemma listed_count_exact_witness :
  In ("fox", Num 2) (calculateWordFrequency "The quick fox. The FOX jumps!")
  /\ 2 = count_occ string_dec (lexicalWords "The quick fox. The FOX jumps!") "fox".
Proof.
  assert (H : In ("fox", Num 2)
                 (calculateWordFrequency "The quick fox. The FOX jumps!"))
    by (vm_compute; left; reflexivity).
  split; [exact H |].
  exact (listed_count_exact "The quick fox. The FOX jumps!" "fox" 2 H).
Defined.

Lemma Before_across {A : Type} (l1 l2 : list A) (x y : A) :
  In x l1 -> In y l2 -> Before (l1 ++ l2) x y.
Proof.
  intros Hx Hy.
  destruct (in_split _ _ Hx) as [a [b Ha]].
  destruct (in_split _ _ Hy) as [c [d Hc]].
  exists a, (b ++ c), d. rewrite Ha, Hc.
  rewrite <- !app_assoc. reflexivity.
Qed.

(** The cut after 20 entries leaves out only the least frequent words: in
    a text without the word [constructor], a counted word that has no
    entry occurs at most as often as every listed word. *)
Theorem unlisted_word_not_more_frequent
        (text : string) (w w' : string) (n' : nat) :
  ~ In "constructor" (lexicalWords text) ->
  In w (lexicalWords text) ->
  Js.has stopWords w = false ->
  w <> "__proto__" ->
  ~ In w (map fst (calculateWordFrequency text)) ->
  In (w', Num n') (calculateWordFrequency text) ->
  count_occ string_dec (lexicalWords text) w <= n'.
Proof.
  intros Hctor Hw Hstop Hproto Hout Hin'.
  unfold calculateWordFrequency, frequencyWith in Hout, Hin'.
  set (obj := fold_left (countWord stopWords) (lexicalWords text) []) in *.
  destruct (frequency_keys stopWords (lexicalWords text)) as [Hnd [_ [Hsup _]]].
  fold obj in Hnd, Hsup.
  assert (Hnum : Forall (fun e => exists n, snd e = Num n) obj).
  { apply stored_numbers. intros x Hx.
    destruct (lexicalWords_shape text x Hx) as [_ [_ Hlow]].
    destruct (lowercase_builtin x Hlow) as [Hnone | Hc]; [exact Hnone |].
    subst x. contradiction. }
  assert (Hkey : In w (map fst obj)) by now apply Hsup.
  apply in_map_iff in Hkey. destruct Hkey as [[k v] [Hk He]]. cbn in Hk. subst k.
  rewrite Forall_forall in Hnum. destruct (Hnum _ He) as [n Hn]. cbn in Hn. subst v.
  assert (Hcount : n = count_occ string_dec (lexicalWords text) w).
  { apply (stored_counts stopWords). now apply assoc_of_entry. }
  rewrite <- Hcount.
  set (full := Js.sort goesAfter (Obj.entries obj)) in *.
  assert (Hfull : In (w, Num n) full).
  { apply (Permutation_in _ (sort_perm goesAfter _)).
    now apply (Permutation_in _ (Permutation_sym (entries_perm obj))). }
  rewrite <- (firstn_skipn 20 full) in Hfull. apply in_app_or in Hfull.
  destruct Hfull as [Hfull | Hfull].
  - exfalso. apply Hout. now apply (in_map fst) in Hfull.
  - assert (Hbefore : Before full (w', Num n') (w, Num n)).
    { rewrite <- (firstn_skipn 20 full). now apply Before_across. }
    assert (Hge : countGe (w', Num n') (w, Num n)).
    { revert Hbefore.
      apply (sort_ordered goesAfter (fun e => exists n, snd e = Num n) countGe).
      - exact countGe_trans.
      - intros a b [m Hm] [p Hp]. unfold goesAfter, compareFn, countGe.
        rewrite Hm, Hp. intros H. apply Z.ltb_ge in H. lia.
      - intros a b [m Hm] [p Hp]. unfold goesAfter, compareFn, countGe.
        rewrite Hm, Hp. intros H. apply Z.ltb_lt in H. lia.
      - apply Forall_forall. intros e Hin.
        apply (Permutation_in _ (entries_perm _)) in Hin. now apply Hnum. }
    exact Hge.
Qed.

Lemma unlisted_word_not_more_frequent_witness :
  let text := "a b c d e f g h i j k l m n o p q r s t u v w x y z z y y" in
  ~ In "w" (map fst (calculateWordFrequency text))
  /\ In ("y", Num 3) (calculateWordFrequency text)
  /\ count_occ string_dec (lexicalWords text) "w" <= 3.
Proof.
  intros text.
  assert (H1 : ~ In "constructor" (lexicalWords text))
    by (apply (count_occ_not_In string_dec); vm_compute; reflexivity).
  assert (H2 : In "w" (lexicalWords text))
    by (apply (count_occ_In string_dec); vm_compute; lia).
  assert (H3 : ~ In "w" (map fst (calculateWordFrequency text)))
    by (apply (count_occ_not_In string_dec); vm_compute; reflexivity).
  assert (H4 : In ("y", Num 3) (calculateWordFrequency text))
    by (vm_compute; left; reflexivity).
  split; [exact H3 |]. split; [exact H4 |].
  apply (unlisted_word_not_more_frequent text "w" "y" 3 H1 H2);
    [vm_compute; reflexivity | discriminate | exact H3 | exact H4].
Defined.

(** * Further properties of the extractor *)

Lemma append_empty (s : string) : (s ++ "")%string = s.
Proof.
  induction s as [| x s IH]; simpl; [reflexivity | now rewrite IH].
Qed.

Section ExtractorMore.

Variable libs : Libraries.

(** The loop, when it resolves: every page has been read. *)
Lemma ocrPages_resolved (pages : list Page) (fullText t : string) :
  snd (ocrPages libs pages fullText) = Resolved t ->
  exists images texts,
    map data pages = map Resolved images
    /\ map (fun image => recognize libs image "eng") images = map Resolved texts
    /\ t = (fullText ++ pagesText texts)%string.
Proof.
  revert fullText. induction pages as [| page rest IH]; intros fullText.
  - cbn. intros [= <-]. exists [], []. split; [reflexivity |].
    split; [reflexivity |]. cbn [pagesText]. now rewrite append_empty.
  - cbn [ocrPages]. destruct (data page) as [image | e] eqn:Hd;
      unfold await, call, bind; cbn beta iota; [| discriminate].
    destruct (recognize libs image "eng") as [t0 | e] eqn:Hr;
      cbn beta iota; [| discriminate].
    specialize (IH (fullText ++ (t0 ++ String "010" EmptyString))%string).
    destruct (ocrPages libs rest _) as [calls r]. cbn [snd] in *.
    intros Hres. destruct (IH Hres) as [images [texts [H1 [H2 H3]]]].
    exists (image :: images), (t0 :: texts).
    split; [cbn; now rewrite Hd, H1 |]. split; [cbn; now rewrite Hr, H2 |].
    rewrite H3. cbn [pagesText]. fold newline. now rewrite append_assoc.
Qed.


End ExtractorMore.


Lemma processPDF_rejection_form (libs : Libraries) (buffer : Buffer) (e : Thrown) :
  snd (processPDF libs buffer) = Rejected e -> exists cause, e = processingFailed cause.
Proof.
  unfold processPDF, tryCatch.
  destruct (bind _ _) as [calls [t | cause]]; cbn; [discriminate |].
  intros [= <-]. now exists cause.
Qed.

Lemma processPDF_rejection_error (libs : Libraries) (buffer : Buffer) (e : Thrown) :
  snd (processPDF libs buffer) = Rejected e -> exists c m, e = ErrorObj (String c m).
Proof.
  intros H. destruct (processPDF_rejection_form libs buffer e H) as [cause ->].
  apply processingFailed_error.
Qed.

(** The loop, when it rejects: a page has failed. *)
Lemma ocrPages_rejected (libs : Libraries) (pages : list Page)
      (fullText : string) (e : Thrown) :
  snd (ocrPages libs pages fullText) = Rejected e -> PageFails libs pages e.
Proof.
  revert fullText. induction pages as [| page rest IH]; intros fullText.
  - discriminate.
  - cbn [ocrPages]. destruct (data page) as [image | e0] eqn:Hd;
      unfold await, call, bind; cbn beta iota.
    + destruct (recognize libs image "eng") as [t0 | e1] eqn:Hr; cbn beta iota.
      * specialize (IH (fullText ++ (t0 ++ String "010" EmptyString))%string).
        destruct (ocrPages libs rest _) as [calls r]. cbn [snd] in *.
        intros H. apply (later_page_fails libs page rest image t0 e Hd Hr).
        now apply IH.
      * cbn. intros [= <-]. now apply (recognize_fails libs page rest image).
    + cbn. intros [= <-]. now apply data_fails.
Qed.

Lemma ocrFallback_rejected (libs : Libraries) (buffer : Buffer) (e : Thrown) :
  snd (ocrFallback libs buffer) = Rejected e -> OcrFails libs buffer e.
Proof.
  unfold ocrFallback, callFromBuffer.
  destruct (fromBuffer libs) as [render |] eqn:Hsome.
  - unfold call, bind. destruct (render buffer) as [pages | e0] eqn:Hrender.
    + pose proof (ocrPages_rejected libs pages "" e) as Hloop.
      destruct (ocrPages libs pages "") as [calls r]. cbn [snd] in *.
      intros H. apply (page_fails libs buffer render pages e Hsome Hrender).
      now apply Hloop.
    + cbn. intros [= <-]. now apply (render_fails libs buffer render).
  - cbn. intros [= <-]. now apply renderer_undefined.
Qed.

(** Every rejection of [processPDF] comes from a failure raised inside one
    of the two paths, and is an error object made by the [catch] clause:
    [Processing failed: ] followed by the message of an error object, or by
    the word [undefined] for a thrown string; for [null] and [undefined]
    it is the [TypeError] of reading [error.message], which has no such
    prefix. *)
Theorem processPDF_rejection_cause (libs : Libraries) (buffer : Buffer) (e : Thrown) :
  snd (processPDF libs buffer) = Rejected e ->
  exists cause,
    ExtractionFails libs buffer cause
    /\ e = match cause with
           | ErrorObj m => ErrorObj ("Processing failed: " ++ m)%string
           | ThrownString _ => ErrorObj "Processing failed: undefined"
           | ThrownNull =>
               ErrorObj "Cannot read properties of null (reading 'message')"
           | ThrownUndefined =>
               ErrorObj "Cannot read properties of undefined (reading 'message')"
           end.
Proof.
  intros H.
  assert (Hcause : exists cause, ExtractionFails libs buffer cause
                                 /\ e = processingFailed cause).
  { destruct (pdfParse libs buffer) as [parsed | e0] eqn:Hparse.
    - rewrite (processPDF_parsed libs buffer parsed Hparse) in H.
      destruct (Nat.ltb_spec 50 (String.length (Js.trim (text parsed))))
        as [Hlen | Hlen]; [discriminate H |].
      cbn [snd] in H.
      destruct (snd (ocrFallback libs buffer)) as [t | e0] eqn:Hocr;
        [discriminate H |].
      injection H as <-. exists e0. split; [| reflexivity].
      apply (ocr_fails libs buffer parsed e0 Hparse Hlen).
      now apply ocrFallback_rejected.
    - unfold processPDF in H. rewrite Hparse in H. cbn in H. injection H as <-.
      exists e0. split; [now apply parse_fails | reflexivity]. }
  destruct Hcause as [cause [Hfail ->]].
  exists cause. split; [exact Hfail |]. destruct cause; reflexivity.
Qed.

Lemma processPDF_rejection_cause_witness :
  snd (processPDF nullLibs [])
  = Rejected (ErrorObj "Cannot read properties of null (reading 'message')")
  /\ exists cause, ExtractionFails nullLibs [] cause.
Proof.
  assert (H : snd (processPDF nullLibs [])
              = Rejected (ErrorObj "Cannot read properties of null (reading 'message')"))
    by reflexivity.
  split; [exact H |].
  destruct (processPDF_rejection_cause nullLibs [] _ H) as [cause [Hfail _]].
  exists cause. exact Hfail.
Defined.

(** When [processPDF] resolves, the parse has resolved, and the text is the
    parsed text when that is longer than 50 code units once trimmed; when
    it is not, [fromBuffer] was defined and has rendered the pages, every
    page has been read, and the text is the texts of the pages in page
    order, each followed by a newline. *)
Theorem processPDF_resolved (libs : Libraries) (buffer : Buffer) (t : string) :
  snd (processPDF libs buffer) = Resolved t ->
  exists parsed,
    pdfParse libs buffer = Resolved parsed
    /\ ((50 < String.length (Js.trim (text parsed)) /\ t = text parsed)
        \/ (String.length (Js.trim (text parsed)) <= 50
            /\ exists render pages images texts,
                fromBuffer libs = Some render
                /\ render buffer = Resolved pages
                /\ map data pages = map Resolved images
                /\ map (fun image => recognize libs image "eng") images
                   = map Resolved texts
                /\ t = pagesText texts)).
Proof.
  intros H. destruct (pdfParse libs buffer) as [parsed | e] eqn:Hparse.
  - rewrite (processPDF_parsed libs buffer parsed Hparse) in H.
    exists parsed. split; [reflexivity |].
    destruct (Nat.ltb_spec 50 (String.length (Js.trim (text parsed)))) as [Hlen | Hlen].
    + left. cbn in H. injection H as <-. split; [exact Hlen | reflexivity].
    + right. split; [exact Hlen |]. cbn [snd] in H.
      unfold ocrFallback, callFromBuffer in H.
      destruct (fromBuffer libs) as [render |]; [| discriminate H].
      unfold call, bind in H.
      destruct (render buffer) as [pages | e] eqn:Hrender; [| discriminate H].
      pose proof (ocrPages_resolved libs pages "" t) as Hloop.
      destruct (ocrPages libs pages "") as [calls [t' | e]]; cbn in H, Hloop;
        [| discriminate H].
      injection H as <-.
      destruct (Hloop eq_refl) as [images [texts [H1 [H2 H3]]]].
      exists render, pages, images, texts. repeat split; assumption.
  - unfold processPDF in H. rewrite Hparse in H. discriminate H.
Qed.

Lemma processPDF_resolved_witness :
  snd (processPDF (scanLibs false) []) = Resolved (pagesText ["first"; "second"; "third"])
  /\ exists parsed, pdfParse (scanLibs false) [] = Resolved parsed.
Proof.
  assert (H : snd (processPDF (scanLibs false) [])
              = Resolved (pagesText ["first"; "second"; "third"])) by reflexivity.
  split; [exact H |].
  destruct (processPDF_resolved (scanLibs false) [] _ H) as [parsed [Hp _]].
  exists parsed. exact Hp.
Defined.

(** * Properties of the route *)

(** The route, case by case. *)
Lemma analyzeRoute_cases (libs : Libraries) (req : Server.Request) :
  Server.analyzeRoute libs req
  = match Server.file req with
    | None =>
        ([], Resolved (Server.mkResponse 400
                         (Server.ErrorBody (Some "No file uploaded"))))
    | Some upload =>
        if String.eqb (Server.mimetype upload) "application/pdf"
        then
          (fst (processPDF libs (Server.buffer upload)),
           match snd (processPDF libs (Server.buffer upload)) with
           | Resolved text =>
               Resolved (Server.mkResponse 200
                           (Server.AnalysisBody (calculateStats text)
                                                (calculateWordFrequency text)))
           | Rejected e =>
               match readMessage e with
               | Resolved message =>
                   Resolved (Server.mkResponse 500 (Server.ErrorBody message))
               | Rejected typeError => Rejected typeError
               end
           end)
        else
          ([], Resolved (Server.mkResponse 400
                           (Server.ErrorBody (Some "Only PDF files allowed"))))
    end.
Proof.
  unfold Server.analyzeRoute.
  destruct (Server.file req) as [upload |]; [| reflexivity].
  destruct (String.eqb (Server.mimetype upload) "application/pdf"); [| reflexivity].
  cbn [negb]. unfold bind.
  destruct (processPDF libs (Server.buffer upload)) as [calls [text | e]];
    cbn; [now rewrite app_nil_r |].
  unfold await. destruct (readMessage e); cbn; now rewrite app_nil_r.
Qed.

(** The route answers every request: it resolves with status 200, 400 or
    500, and an answer other than 200 carries an error message that is not
    empty. *)
Theorem analyzeRoute_answers (libs : Libraries) (req : Server.Request) :
  exists r,
    snd (Server.analyzeRoute libs req) = Resolved r
    /\ (Server.status r = 200 \/ Server.status r = 400 \/ Server.status r = 500)
    /\ (Server.status r <> 200 ->
        exists c m, Server.body r = Server.ErrorBody (Some (String c m))).
Proof.
  rewrite analyzeRoute_cases.
  destruct (Server.file req) as [upload |].
  - destruct (String.eqb (Server.mimetype upload) "application/pdf").
    + cbn [snd].
      destruct (snd (processPDF libs (Server.buffer upload))) as [text | e] eqn:Hp.
      * eexists. split; [reflexivity |]. split; [now left |].
        intros H. now contradiction H.
      * destruct (processPDF_rejection_error _ _ _ Hp) as [c [m ->]].
        eexists. split; [reflexivity |]. split; [now right; right |].
        intros _. cbn. eexists. eexists. reflexivity.
    + eexists. split; [reflexivity |]. split; [now right; left |].
      intros _. cbn. eexists. eexists. reflexivity.
  - eexists. split; [reflexivity |]. split; [now right; left |].
    intros _. cbn. eexists. eexists. reflexivity.
Qed.

(** The route answers 200 exactly when a file was uploaded as
    [application/pdf] and [processPDF] resolved; the body is then the
    statistics and the frequency list of the extracted text. *)
Theorem analyzeRoute_ok_iff (libs : Libraries) (req : Server.Request)
        (r : Server.Response) :
  snd (Server.analyzeRoute libs req) = Resolved r ->
  (Server.status r = 200
   <-> exists upload text,
        Server.file req = Some upload
        /\ Server.mimetype upload = "application/pdf"
        /\ snd (processPDF libs (Server.buffer upload)) = Resolved text
        /\ Server.body r
           = Server.AnalysisBody (calculateStats text) (calculateWordFrequency text)).
Proof.
  rewrite analyzeRoute_cases.
  destruct (Server.file req) as [upload |].
  - destruct (String.eqb_spec (Server.mimetype upload) "application/pdf") as [E | E].
    + cbn [snd].
      destruct (snd (processPDF libs (Server.buffer upload))) as [text | e] eqn:Hp.
      * intros [= <-]; cbn.
        split; [| reflexivity]. intros _. exists upload, text.
        repeat split; assumption.
      * destruct (processPDF_rejection_error _ _ _ Hp) as [c [m Hform]].
        rewrite Hform. cbn [readMessage]. intros [= <-]; cbn.
        split; [discriminate |].
        intros [u [t [Hu [_ [Ht _]]]]]. injection Hu as <-.
        rewrite Hp in Ht. discriminate Ht.
    + intros [= <-]; cbn. split; [discriminate |].
      intros [u [t [Hu [Hm _]]]]. injection Hu as <-. contradiction.
  - intros [= <-]; cbn. split; [discriminate |].
    intros [u [t [Hu _]]]. discriminate Hu.
Qed.

Lemma analyzeRoute_ok_iff_witness :
  let req := Server.mkRequest (Some (Server.mkFile "application/pdf" [])) in
  let r := Server.mkResponse 200
             (Server.AnalysisBody (calculateStats (pagesText ["first"; "second"; "third"]))
                (calculateWordFrequency (pagesText ["first"; "second"; "third"]))) in
  snd (Server.analyzeRoute (scanLibs false) req) = Resolved r
  /\ exists upload text,
      Server.file req = Some upload
      /\ Server.mimetype upload = "application/pdf"
      /\ snd (processPDF (scanLibs false) (Server.buffer upload)) = Resolved text
      /\ Server.body r
         = Server.AnalysisBody (calculateStats text) (calculateWordFrequency text).
Proof.
  intros req r.
  assert (H : snd (Server.analyzeRoute (scanLibs false) req) = Resolved r)
    by (vm_compute; reflexivity).
  split; [exact H |].
  apply (analyzeRoute_ok_iff (scanLibs false) req r H). reflexivity.
Defined.

(** A request the route refuses with 400 costs no library call: there was
    no file, or its type was not [application/pdf], and nothing was parsed
    or rendered.  A 500 comes from a rejection of [processPDF] alone, and
    carries the message of the error [processPDF] rejected with. *)
Theorem analyzeRoute_refusals (libs : Libraries) (req : Server.Request)
        (r : Server.Response) :
  snd (Server.analyzeRoute libs req) = Resolved r ->
  (Server.status r = 400 ->
   fst (Server.analyzeRoute libs req) = []
   /\ (Server.file req = None
       \/ exists upload, Server.file req = Some upload
                         /\ Server.mimetype upload <> "application/pdf"))
  /\ (Server.status r = 500 ->
      exists upload m,
        Server.file req = Some upload
        /\ Server.mimetype upload = "application/pdf"
        /\ snd (processPDF libs (Server.buffer upload)) = Rejected (ErrorObj m)
        /\ Server.body r = Server.ErrorBody (Some m)).
Proof.
  rewrite analyzeRoute_cases.
  destruct (Server.file req) as [upload |].
  - destruct (String.eqb_spec (Server.mimetype upload) "application/pdf") as [E | E].
    + cbn [snd fst].
      destruct (snd (processPDF libs (Server.buffer upload))) as [text | e] eqn:Hp.
      * intros [= <-]; cbn [Server.status Server.body].
        split; discriminate.
      * destruct (processPDF_rejection_error _ _ _ Hp) as [c [m Hform]].
        rewrite Hform. cbn [readMessage].
        intros [= <-]; cbn [Server.status Server.body].
        split; [discriminate |].
        intros _. exists upload, (String c m).
        split; [reflexivity |]. split; [exact E |].
        split; [now rewrite <- Hform | reflexivity].
    + intros [= <-]; cbn. split; [| discriminate].
      intros _. split; [reflexivity |]. right. exists upload. now split.
  - intros [= <-]; cbn. split; [| discriminate].
    intros _. split; [reflexivity | now left].
Qed.

Lemma analyzeRoute_refusals_witness :
  let refused := Server.mkRequest (Some (Server.mkFile "image/png" [])) in
  let failed := Server.mkRequest (Some (Server.mkFile "application/pdf" [])) in
  (snd (Server.analyzeRoute digitalLibs refused)
   = Resolved (Server.mkResponse 400 (Server.ErrorBody (Some "Only PDF files allowed")))
   /\ fst (Server.analyzeRoute digitalLibs refused) = [])
  /\ (snd (Server.analyzeRoute nullLibs failed)
      = Resolved (Server.mkResponse 500
                    (Server.ErrorBody
                       (Some "Cannot read properties of null (reading 'message')")))
      /\ exists upload m,
          Server.file failed = Some upload
          /\ Server.mimetype upload = "application/pdf"
          /\ snd (processPDF nullLibs (Server.buffer upload)) = Rejected (ErrorObj m)
          /\ Server.ErrorBody
               (Some "Cannot read properties of null (reading 'message')")
             = Server.ErrorBody (Some m)).
Proof.
  intros refused failed.
  assert (H : snd (Server.analyzeRoute digitalLibs refused)
              = Resolved (Server.mkResponse 400
                            (Server.ErrorBody (Some "Only PDF files allowed"))))
    by reflexivity.
  assert (H' : snd (Server.analyzeRoute nullLibs failed)
               = Resolved (Server.mkResponse 500
                             (Server.ErrorBody
                                (Some "Cannot read properties of null (reading 'message')"))))
    by reflexivity.
  split.
  - split; [exact H |].
    exact (proj1 (proj1 (analyzeRoute_refusals digitalLibs refused _ H) eq_refl)).
  - split; [exact H' |].
    exact (proj2 (analyzeRoute_refusals nullLibs failed _ H') eq_refl).
Defined.

(** A scan without a page is a success: when the parsed text is 50 code
    units or shorter and [fromBuffer] yields no page, the route answers 200
    with all-zero statistics and an empty frequency list. *)
Theorem analyzeRoute_empty_scan
        (libs : Libraries) (upload : Server.File) (parsed : PdfData)
        (render : Buffer -> Outcome (list Page)) :
  Server.mimetype upload = "application/pdf" ->
  pdfParse libs (Server.buffer upload) = Resolved parsed ->
  String.length (Js.trim (text parsed)) <= 50 ->
  fromBuffer libs = Some render ->
  render (Server.buffer upload) = Resolved [] ->
  snd (Server.analyzeRoute libs (Server.mkRequest (Some upload)))
  = Resolved (Server.mkResponse 200
                (Server.AnalysisBody (mkStats 0 0 0 0 (Js.Fin 0)) [])).
Proof.
  intros Hmime Hparse Hlen Hsome Hrender.
  rewrite analyzeRoute_cases. cbn [Server.file].
  rewrite Hmime, String.eqb_refl.
  rewrite (processPDF_parsed libs _ parsed Hparse).
  apply Nat.ltb_ge in Hlen. rewrite Hlen.
  unfold ocrFallback, callFromBuffer. rewrite Hsome.
  unfold call, bind. rewrite Hrender. reflexivity.
Qed.

Lemma analyzeRoute_empty_scan_witness :
  snd (Server.analyzeRoute emptyScanLibs
         (Server.mkRequest (Some (Server.mkFile "application/pdf" []))))
  = Resolved (Server.mkResponse 200
                (Server.AnalysisBody (mkStats 0 0 0 0 (Js.Fin 0)) [])).
Proof.
  apply (analyzeRoute_empty_scan emptyScanLibs (Server.mkFile "application/pdf" [])
           (mkPdfData "") (fun _ => Resolved []));
    solve [reflexivity | vm_compute; lia].
Defined.

(** * Properties of the page *)

(** An upload that the server analyses: for a file below the size limit,
    sent as [application/pdf], on which [processPDF] resolves, the page ends
    with the statistics and the frequency list of the extracted text, is
    no longer loading, and has shown the one toast of success. *)
Theorem upload_shows_analysis
        (libs : Libraries) (f : Server.File) (text : string) (s : App.State) :
  (N.of_nat (List.length (Server.buffer f)) < Server.fileSizeLimit)%N ->
  Server.mimetype f = "application/pdf" ->
  snd (processPDF libs (Server.buffer f)) = Resolved text ->
  App.run (App.upload libs f) s
  = App.mkState (Some (calculateStats text)) (Some (calculateWordFrequency text)) false
  /\ App.toasts (App.upload libs f) = [App.ToastSuccess "Analysis complete!"].
Proof.
  intros _ Hmime Hp. unfold App.upload.
  rewrite analyzeRoute_cases. cbn [Server.file].
  rewrite Hmime, String.eqb_refl. cbn [snd]. rewrite Hp.
  split; reflexivity.
Qed.

Lemma upload_shows_analysis_witness :
  let f := Server.mkFile "application/pdf" [] in
  let text := pagesText ["first"; "second"; "third"] in
  App.run (App.upload (scanLibs false) f) App.initial
  = App.mkState (Some (calculateStats text)) (Some (calculateWordFrequency text)) false
  /\ App.toasts (App.upload (scanLibs false) f)
     = [App.ToastSuccess "Analysis complete!"].
Proof.
  intros f text.
  apply (upload_shows_analysis (scanLibs false) f text App.initial);
    [reflexivity | reflexivity | vm_compute; reflexivity].
Defined.

(** An upload that the server refuses or fails on: for a file below the
    size limit that is not sent as [application/pdf], or on which
    [processPDF] rejects, the page keeps the statistics and the frequency
    list it had, is no longer loading, and has shown one toast of error,
    with the message of the server's answer and not the default one. *)
Theorem upload_failure_keeps_results
        (libs : Libraries) (f : Server.File) (s : App.State) :
  (N.of_nat (List.length (Server.buffer f)) < Server.fileSizeLimit)%N ->
  (Server.mimetype f <> "application/pdf"
   \/ exists e, snd (processPDF libs (Server.buffer f)) = Rejected e) ->
  App.run (App.upload libs f) s
  = App.mkState (App.stats s) (App.wordFrequency s) false
  /\ exists r m,
      snd (Server.analyzeRoute libs (Server.mkRequest (Some f))) = Resolved r
      /\ Server.body r = Server.ErrorBody (Some m)
      /\ App.toasts (App.upload libs f) = [App.ToastError m].
Proof.
  intros _ Hwhy. unfold App.upload.
  rewrite analyzeRoute_cases. cbn [Server.file].
  destruct (String.eqb_spec (Server.mimetype f) "application/pdf") as [E | E].
  - destruct Hwhy as [Hwhy | [e Hp]]; [contradiction |].
    cbn [snd]. rewrite Hp.
    destruct (processPDF_rejection_error _ _ _ Hp) as [c [m ->]].
    split; [reflexivity |].
    eexists. eexists. split; [reflexivity |]. split; reflexivity.
  - split; [reflexivity |].
    eexists. eexists. split; [reflexivity |]. split; reflexivity.
Qed.

Lemma upload_failure_keeps_results_witness :
  let f := Server.mkFile "application/pdf" [] in
  let shown := App.mkState (Some (calculateStats "old")) (Some []) false in
  App.run (App.upload (scanLibs true) f) shown = shown
  /\ App.toasts (App.upload (scanLibs true) f)
     = [App.ToastError "Processing failed: worker terminated"].
Proof.
  intros f shown.
  assert (H : exists e, snd (processPDF (scanLibs true) (Server.buffer f)) = Rejected e)
    by (eexists; vm_compute; reflexivity).
  destruct (upload_failure_keeps_results (scanLibs true) f shown
              ltac:(reflexivity) (or_intror H)) as [Hrun _].
  split; [exact Hrun | vm_compute; reflexivity].
Defined.

Lemma frequency_list_shape_witness :
  ~ In "constructor" (lexicalWords "to be or not to be, that is the question")
  /\ SortedByCount (calculateWordFrequency "to be or not to be, that is the question").
Proof.
  assert (H : ~ In "constructor"
                (lexicalWords "to be or not to be, that is the question"))
    by (apply (count_occ_not_In string_dec); vm_compute; reflexivity).
  split; [exact H |].
  exact (proj2 (proj2 (frequency_list_shape
                         "to be or not to be, that is the question")) H).
Defined.
